(** * The RAG support layer of the Sagan dashboard backend (src/server.js)

    A shallow embedding of the retrieval helpers, of the chart helpers and
    of the administrative handlers that mutate the in-memory stores,
    followed by the properties the specification states about them and by
    further properties that the code shows.

    JavaScript numbers are IEEE 754 binary64 values: they are modelled by
    Rocq's primitive floats, whose operations are specified against
    [SpecFloat].  JavaScript strings are sequences of UTF-16 code units. *)

From Stdlib Require Import String Ascii DecimalString DecimalNat.
From Stdlib Require Import ZArith NArith List Bool Lia Permutation Sorted Floats.
Import ListNotations.

#[local] Set Warnings "-inexact-float,-register-all".

(* ================================================================== *)
(** * JavaScript strings and values *)
(* ================================================================== *)

(** A string is the list of its UTF-16 code units. *)
Abbreviation char := N (only parsing).
Abbreviation jsstring := (list N) (only parsing).

(** Literals are written as ASCII strings. *)
Definition str (s : string) : jsstring :=
  map N_of_ascii (list_ascii_of_string s).

Definition jsstring_eqb (a b : jsstring) : bool :=
  if list_eq_dec N.eq_dec a b then true else false.

(** [WhiteSpace] and [LineTerminator] of ECMAScript: the code units that
    [String.prototype.trim] strips and that [parseInt] skips. *)
Definition isWhiteSpace (c : char) : bool :=
  (existsb (N.eqb c)
     [9; 10; 11; 12; 13; 32; 160; 5760; 8232; 8233; 8239; 8287; 12288; 65279]
   || ((8192 <=? c) && (c <=? 8202)))%N.

Fixpoint dropWhile {A} (p : A -> bool) (l : list A) : list A :=
  match l with
  | [] => []
  | x :: l' => if p x then dropWhile p l' else l
  end.

Definition trimStart (s : jsstring) : jsstring := dropWhile isWhiteSpace s.
Definition trimEnd (s : jsstring) : jsstring := rev (dropWhile isWhiteSpace (rev s)).

(** [s.trim()] *)
Definition trim (s : jsstring) : jsstring := trimEnd (trimStart s).

(** [s.substring(0, n)] *)
Definition substring0 (n : Z) (s : jsstring) : jsstring := firstn (Z.to_nat n) s.

(** [Number(n)] for an integer [n]: the nearest binary64 value. *)
Definition Number (n : Z) : float :=
  SF2Prim (binary_normalize prec emax n 0 false).

(** A JSON-like value, as [req.body] fields and HTTP responses carry them. *)
Inductive jsval :=
| JUndefined
| JNull
| JBool (b : bool)
| JNum (x : float)
| JStr (s : jsstring)
| JArr (elems : list jsval)
| JObj (props : list (jsstring * jsval)).

(** [ToBoolean]: the falsy values are [undefined], [null], [false], [0],
    [-0], [NaN] and the empty string. *)
Definition truthy (v : jsval) : bool :=
  match v with
  | JUndefined | JNull => false
  | JBool b => b
  | JNum x => negb (PrimFloat.eqb x 0) && PrimFloat.eqb x x
  | JStr s => negb (Nat.eqb (length s) 0)
  | JArr _ | JObj _ => true
  end.

(** [v !== undefined] *)
Definition isDefined (v : jsval) : bool :=
  match v with JUndefined => false | _ => true end.

(** Abrupt and normal completion of an evaluation. *)
Record JsError := { message : jsstring }.

Inductive completion (A : Type) :=
| Return (a : A)
| Throw (e : JsError).
Arguments Return {A} a.
Arguments Throw {A} e.

Definition bind {A B} (c : completion A) (k : A -> completion B) : completion B :=
  match c with
  | Return a => k a
  | Throw e => Throw e
  end.

Notation "x <- c ;; k" := (bind c (fun x => k))
  (at level 61, c at next level, right associativity).

(** [try { body } catch (error) { handler }] *)
Definition tryCatch {A} (body : completion A) (handler : JsError -> completion A)
  : completion A :=
  match body with
  | Return a => Return a
  | Throw e => handler e
  end.

Definition TypeError : JsError :=
  {| message := str "Cannot read properties of undefined" |}.

Fixpoint lookupProp (name : jsstring) (props : list (jsstring * jsval)) : jsval :=
  match props with
  | [] => JUndefined
  | (k, v) :: rest => if jsstring_eqb k name then v else lookupProp name rest
  end.

(** [v.name] for the property names [data] and [embedding]: reading a
    property of [undefined] or [null] throws; of an object it is the stored
    value; strings, numbers, booleans and arrays have no such property. *)
Definition getProp (v : jsval) (name : jsstring) : completion jsval :=
  match v with
  | JUndefined | JNull => Throw TypeError
  | JObj props => Return (lookupProp name props)
  | _ => Return JUndefined
  end.

(** [v[0]] *)
Definition getFirst (v : jsval) : completion jsval :=
  match v with
  | JUndefined | JNull => Throw TypeError
  | JArr elems => Return (nth 0 elems JUndefined)
  | JStr (c :: _) => Return (JStr [c])
  | JObj props => Return (lookupProp (str "0") props)
  | _ => Return JUndefined
  end.

(* ================================================================== *)
(** * Data model *)
(* ================================================================== *)

Module Chunk.
Record t := mk {
  id : jsstring;
  fileName : jsstring;
  content : jsstring;
  embedding : list float;
  category : jsstring;
  chunkIndex : nat;
  totalChunks : nat;
  processedAt : jsstring;
  keywords : list jsstring
}.
End Chunk.

(** [{...doc, similarity}] *)
Record ScoredChunk := { doc : Chunk.t; similarity : float }.

Module TrainingExample.
Record t := mk {
  content : jsstring;
  fileName : jsstring;
  uploadedAt : jsstring;
  category : jsstring;
  keywords : list jsstring
}.
End TrainingExample.

(** The two stores the handlers mutate. *)
Record ServerState := {
  trainingExamples : list TrainingExample.t;
  documentStore : list Chunk.t
}.

Module AdminSettings.
Record t := mk {
  systemPrompt : jsval;
  claudeModel : jsval;
  maxTokens : jsval;
  temperature : jsval;
  ragEnabled : jsval;
  similarityThreshold : jsval;
  maxTrainingExamples : jsval
}.
End AdminSettings.

Module RagSettings.
Record t := mk {
  enabled : jsval;
  mode : jsval;
  similarityThreshold : jsval;
  maxExamples : jsval
}.
End RagSettings.

(* ================================================================== *)
(** * RAG helper functions *)
(* ================================================================== *)

(** ** generateKeywordVector *)

Definition keywords : list jsstring :=
  map str
    ["market"; "treatment"; "physician"; "academic"; "community"; "region";
     "adoption"; "preference"; "efficacy"; "safety"; "compliance"; "prescribing";
     "competition"; "share"; "growth"; "trend"; "segment"; "therapeutic";
     "survey"; "analysis"; "data"; "patient"; "clinical"; "therapy"]%string.

Fixpoint startsWith (pat s : jsstring) : bool :=
  match pat, s with
  | [], _ => true
  | _ :: _, [] => false
  | p :: pat', c :: s' => N.eqb p c && startsWith pat' s'
  end.

(** [(s.match(new RegExp(keyword, 'g')) || []).length] for a keyword made
    of letters: the matches are found left to right and do not overlap, the
    search resuming after the end of each match.  [skip] counts the code
    units of the current match still to step over. *)
Fixpoint matchCountFrom (keyword : jsstring) (skip : nat) (s : jsstring) : nat :=
  match s with
  | [] => 0
  | _ :: s' =>
      match skip with
      | S k => matchCountFrom keyword k s'
      | O =>
          if startsWith keyword s
          then S (matchCountFrom keyword (length keyword - 1) s')
          else matchCountFrom keyword 0 s'
      end
  end.

Definition matchCount (keyword s : jsstring) : nat := matchCountFrom keyword 0 s.

Definition embeddingsUrl : jsstring := str "https://api.openai.com/v1/embeddings".

Definition embeddingRequest (text : jsstring) : jsval :=
  JObj [(str "model", JStr (str "text-embedding-ada-002"));
        (str "input", JStr (substring0 8000 text))].

Definition vectorValue (v : list float) : jsval := JArr (map JNum v).

(** [!OPENAI_API_KEY]: the environment variable is unset ([None]) or a
    string, and the empty string is falsy. *)
Definition keyMissing (OPENAI_API_KEY : option jsstring) : bool :=
  match OPENAI_API_KEY with
  | None => true
  | Some k => Nat.eqb (length k) 0
  end.

Section Embedding.

(** [String.prototype.toLowerCase] is the host's Unicode lower-casing. *)
Variable toLowerCase : jsstring -> jsstring.

Variable OPENAI_API_KEY : option jsstring.

(** The outcome of [await axios.post(url, body, config)]: a response
    object, or a rejection. *)
Variable axios_post : jsstring -> jsval -> completion jsval.

Definition generateKeywordVector (text : jsstring) : list float :=
  let lowerText := toLowerCase text in
  map (fun keyword =>
         (Number (Z.of_nat (matchCount keyword lowerText))
          / Number (Z.of_nat (length text)) * 1000)%float)
      keywords.

(** ** generateEmbedding *)

(** The remote path: the request and the reading of
    [response.data.data[0].embedding]. *)
Definition remoteEmbedding (text : jsstring) : completion jsval :=
  response <- axios_post embeddingsUrl (embeddingRequest text) ;;
  data <- getProp response (str "data") ;;
  data' <- getProp data (str "data") ;;
  first <- getFirst data' ;;
  getProp first (str "embedding").

Definition generateEmbedding (text : jsstring) : completion jsval :=
  tryCatch
    (if keyMissing OPENAI_API_KEY
     then Return (vectorValue (generateKeywordVector text))
     else remoteEmbedding text)
    (fun error => Return (vectorValue (generateKeywordVector text))).

End Embedding.

(** ** calculateSimilarity *)

(** The body of the [for] loop, on [(dotProduct, norm1, norm2)]. *)
Definition similarityStep (acc : float * float * float) (ab : float * float)
  : float * float * float :=
  let '(dotProduct, norm1, norm2) := acc in
  let '(a, b) := ab in
  (dotProduct + a * b, norm1 + a * a, norm2 + b * b)%float.

Definition calculateSimilarity (vector1 vector2 : list float) : float :=
  if negb (Nat.eqb (length vector1) (length vector2)) then 0%float
  else
    let '(dotProduct, norm1, norm2) :=
      fold_left similarityStep (combine vector1 vector2) (0, 0, 0)%float in
    (dotProduct / (sqrt norm1 * sqrt norm2))%float.

(** ** splitIntoChunks *)

(** The character class [[.!?]]. *)
Definition isTerminator (c : char) : bool :=
  (N.eqb c 46 || N.eqb c 33 || N.eqb c 63)%N.

Definition startsWithTerminator (s : jsstring) : bool :=
  match s with
  | c :: _ => isTerminator c
  | [] => false
  end.

(** [text.split(/[.!?]+/)]: the pieces between maximal runs of
    terminators, with an empty piece before a leading run and after a
    trailing one. *)
Fixpoint splitSentences (s : jsstring) : list jsstring :=
  match s with
  | [] => [[]]
  | c :: s' =>
      if isTerminator c then
        if startsWithTerminator s' then splitSentences s' else [] :: splitSentences s'
      else
        match splitSentences s' with
        | piece :: pieces => (c :: piece) :: pieces
        | [] => [[c]]
        end
  end.

(** [s => s.trim().length > 0] *)
Definition nonBlank (s : jsstring) : bool := Nat.ltb 0 (length (trim s)).

Definition sentencesOf (text : jsstring) : list jsstring :=
  filter nonBlank (splitSentences text).

Definition separator : jsstring := str ". ".

(** A non-empty string is truthy. *)
Definition nonEmpty (s : jsstring) : bool := negb (Nat.eqb (length s) 0).

(** One iteration of the [for (const sentence of sentences)] loop on the
    pair [(chunks, currentChunk)].  The lengths compared are those of the
    current chunk, separators included, and of the sentence alone. *)
Definition chunkStep (maxChunkSize : Z) (st : list jsstring * jsstring)
    (sentence : jsstring) : list jsstring * jsstring :=
  let '(chunks, currentChunk) := st in
  if (Z.of_nat (length currentChunk) + Z.of_nat (length sentence) <? maxChunkSize)%Z
  then (chunks, currentChunk ++ sentence ++ separator)
  else
    ((if nonEmpty (trim currentChunk) then chunks ++ [trim currentChunk] else chunks),
     sentence ++ separator).

Definition splitIntoChunks (text : jsstring) (maxChunkSize : Z) : list jsstring :=
  let sentences := sentencesOf text in
  let '(chunks, currentChunk) := fold_left (chunkStep maxChunkSize) sentences ([], []) in
  if nonEmpty (trim currentChunk) then chunks ++ [trim currentChunk] else chunks.

(** ** retrieveRelevantContext *)

(** [Array.prototype.sort(comparefn)] is a stable sort.  An element [x]
    is inserted in front of the sorted elements that followed it and moves
    past those [y] for which [comparefn(x, y) > 0]; a zero or NaN result
    leaves [x] in front of [y]. *)
Fixpoint sortInsert {A} (comparefn : A -> A -> float) (x : A) (sorted : list A)
  : list A :=
  match sorted with
  | [] => [x]
  | y :: rest =>
      if (0 <? comparefn x y)%float then y :: sortInsert comparefn x rest
      else x :: sorted
  end.

Definition sort {A} (comparefn : A -> A -> float) (l : list A) : list A :=
  fold_right (sortInsert comparefn) [] l.

(** [l.slice(0, end)] for an integer [end]: a negative [end] counts from
    the end of the array. *)
Definition slice0 {A} (end_ : Z) (l : list A) : list A :=
  let len := Z.of_nat (length l) in
  let final := if (end_ <? 0)%Z then Z.max (len + end_) 0 else Z.min end_ len in
  firstn (Z.to_nat final) l.

Definition scoreAll (queryEmbedding : list float) (store : list Chunk.t)
  : list ScoredChunk :=
  map (fun d => {| doc := d;
                   similarity := calculateSimilarity queryEmbedding (Chunk.embedding d) |})
      store.

(** [queryEmbedding] is the awaited result of [generateEmbedding(query)],
    [similarityThreshold] the current [adminSettings.similarityThreshold]. *)
Definition retrieveRelevantContext (documentStore : list Chunk.t)
    (similarityThreshold : float) (queryEmbedding : list float) (limit : Z)
  : list ScoredChunk :=
  if Nat.eqb (length documentStore) 0 then []
  else
    let similarities := scoreAll queryEmbedding documentStore in
    slice0 limit
      (sort (fun a b => (similarity b - similarity a)%float)
         (filter (fun d => (similarityThreshold <? similarity d)%float) similarities)).

(** ** processDocument *)

(** Decimal rendering of an array index inside a template literal. *)
Definition decimal (n : nat) : jsstring :=
  str (NilEmpty.string_of_uint (Nat.to_uint n)).

Section Documents.

(** The awaited result of [generateEmbedding] on a chunk, the keyword
    extractor and the clock reading [new Date().toISOString()]; no property
    below depends on what they return. *)
Variable embed : jsstring -> list float.
Variable extractKeywords : jsstring -> list jsstring.
Variable now : jsstring.

Definition docChunk (fileName category : jsstring) (total i : nat)
    (chunk : jsstring) : Chunk.t :=
  {| Chunk.id := fileName ++ str "-chunk-" ++ decimal i;
     Chunk.fileName := fileName;
     Chunk.content := chunk;
     Chunk.embedding := embed chunk;
     Chunk.category := category;
     Chunk.chunkIndex := i;
     Chunk.totalChunks := total;
     Chunk.processedAt := now;
     Chunk.keywords := extractKeywords chunk |}.

(** The [for] loop over the chunks, from index [i]. *)
Fixpoint processChunks (fileName category : jsstring) (total i : nat)
    (chunks : list jsstring) : list Chunk.t :=
  match chunks with
  | [] => []
  | chunk :: rest =>
      docChunk fileName category total i chunk
      :: processChunks fileName category total (S i) rest
  end.

(** Returns the processed chunks and the store they were pushed onto. *)
Definition processDocument (content fileName category : jsstring)
    (documentStore : list Chunk.t) : list Chunk.t * list Chunk.t :=
  let chunks := splitIntoChunks content 500 in
  let processedChunks := processChunks fileName category (length chunks) 0 chunks in
  (processedChunks, documentStore ++ processedChunks).

(** ** POST /admin/upload-training *)

Inductive UploadResponse :=
| UploadBadRequest               (* 400 'Training data and filename required' *)
| Uploaded (totalExamples chunksProcessed : nat).

Definition uploadTraining (ragEnabled : bool)
    (trainingData fileName category : jsstring) (st : ServerState)
  : UploadResponse * ServerState :=
  if negb (nonEmpty trainingData) || negb (nonEmpty fileName)
  then (UploadBadRequest, st)
  else
    let trainingExample :=
      {| TrainingExample.content := trainingData;
         TrainingExample.fileName := fileName;
         TrainingExample.uploadedAt := now;
         TrainingExample.category := category;
         TrainingExample.keywords := extractKeywords trainingData |} in
    let examples := trainingExamples st ++ [trainingExample] in
    let '(processedChunks, store) :=
      if ragEnabled
      then processDocument trainingData fileName category (documentStore st)
      else ([], documentStore st) in
    (Uploaded (length examples) (length processedChunks),
     {| trainingExamples := examples; documentStore := store |}).

End Documents.

(* ================================================================== *)
(** * DELETE /admin/training-examples/:index *)
(* ================================================================== *)

(** The value of [parseInt]: [NaN], or an integer.  (Beyond 2^53 the
    double is a rounding of the integer read; rounding is monotone, so the
    comparisons with an array length below are those of the integer.) *)
Inductive ParsedInt :=
| PNaN
| PInt (z : Z).

Definition digitValue (radix : Z) (c : char) : option Z :=
  let d :=
    if ((48 <=? c) && (c <=? 57))%N then Some (Z.of_N c - 48)%Z
    else if ((97 <=? c) && (c <=? 122))%N then Some (Z.of_N c - 87)%Z
    else if ((65 <=? c) && (c <=? 90))%N then Some (Z.of_N c - 55)%Z
    else None in
  match d with
  | Some v => if (v <? radix)%Z then Some v else None
  | None => None
  end.

(** Reads the longest prefix of digits; [acc] is [None] until a digit is read. *)
Fixpoint parseDigits (radix : Z) (acc : option Z) (s : jsstring) : option Z :=
  match s with
  | [] => acc
  | c :: s' =>
      match digitValue radix c with
      | Some d =>
          parseDigits radix
            (Some (match acc with Some a => a * radix + d | None => d end)%Z) s'
      | None => acc
      end
  end.

(** [parseInt(string)] with no radix argument. *)
Definition parseInt (input : jsstring) : ParsedInt :=
  let s := trimStart input in
  let '(negative, s) :=
    match s with
    | 45%N :: s' => (true, s')
    | 43%N :: s' => (false, s')
    | _ => (false, s)
    end in
  let '(radix, s) :=
    match s with
    | 48%N :: 120%N :: s' => (16, s')
    | 48%N :: 88%N :: s' => (16, s')
    | _ => (10, s)
    end%Z in
  match parseDigits radix None s with
  | None => PNaN
  | Some v => PInt (if negative then - v else v)
  end.

(** [index < n] and [index >= n] on numbers: both are false at [NaN]. *)
Definition numLt (index : ParsedInt) (n : Z) : bool :=
  match index with
  | PNaN => false
  | PInt z => (z <? n)%Z
  end.

Definition numGe (index : ParsedInt) (n : Z) : bool :=
  match index with
  | PNaN => false
  | PInt z => (n <=? z)%Z
  end.

(** [ToIntegerOrInfinity] *)
Definition toInteger (index : ParsedInt) : Z :=
  match index with
  | PNaN => 0
  | PInt z => z
  end.

(** [array.splice(start, 1)]: the removed elements and the array left. *)
Definition splice1 {A} (start : ParsedInt) (array : list A) : list A * list A :=
  let len := Z.of_nat (length array) in
  let relativeStart := toInteger start in
  let actualStart :=
    if (relativeStart <? 0)%Z then Z.max (len + relativeStart) 0
    else Z.min relativeStart len in
  let actualDeleteCount := Z.min (Z.max 1 0) (len - actualStart) in
  let from := Z.to_nat actualStart in
  let count := Z.to_nat actualDeleteCount in
  (firstn count (skipn from array),
   firstn from array ++ skipn (from + count) array).

Inductive DeleteResponse :=
| NotFound                       (* 404 'Training example not found' *)
| Deleted (deletedFile : jsstring) (removedChunks remainingCount : nat)
| DeleteFailed.                  (* 500 'Failed to delete training example' *)

Definition deleteTrainingExample (indexParam : jsstring) (st : ServerState)
  : DeleteResponse * ServerState :=
  let index := parseInt indexParam in
  if numLt index 0 || numGe index (Z.of_nat (length (trainingExamples st)))
  then (NotFound, st)
  else
    let '(removedElements, remaining) := splice1 index (trainingExamples st) in
    match removedElements with
    | [] =>
        (* [removed] is undefined: reading [removed.fileName] throws, the
           handler's [catch] answers 500 and the store is not reassigned *)
        (DeleteFailed,
         {| trainingExamples := remaining; documentStore := documentStore st |})
    | removed :: _ =>
        let originalLength := length (documentStore st) in
        let store :=
          filter (fun doc => negb (jsstring_eqb (Chunk.fileName doc)
                                     (TrainingExample.fileName removed)))
                 (documentStore st) in
        let removedChunks := originalLength - length store in
        (Deleted (TrainingExample.fileName removed) removedChunks (length remaining),
         {| trainingExamples := remaining; documentStore := store |})
    end.

(* ================================================================== *)
(** * Settings updates *)
(* ================================================================== *)

(** The destructured body of POST /admin/update-api-settings; a field
    the request does not carry is [undefined]. *)
Record ApiSettingsBody := {
  body_claudeModel : jsval;
  body_maxTokens : jsval;
  body_temperature : jsval;
  body_ragEnabled : jsval;
  body_similarityThreshold : jsval;
  body_maxTrainingExamples : jsval
}.

(** The destructured body of POST /admin/rag-settings. *)
Record RagSettingsBody := {
  body_enabled : jsval;
  body_mode : jsval;
  body_threshold : jsval;
  body_maxExamples : jsval
}.

Section Settings.

(** [parseInt] and [parseFloat] applied to an arbitrary request value
    (after its [ToString] conversion). *)
Variable parseIntOf : jsval -> float.
Variable parseFloatOf : jsval -> float.

Definition updateApiSettings (body : ApiSettingsBody) (adminSettings : AdminSettings.t)
  : AdminSettings.t :=
  {| AdminSettings.systemPrompt := AdminSettings.systemPrompt adminSettings;
     AdminSettings.claudeModel :=
       if truthy (body_claudeModel body) then body_claudeModel body
       else AdminSettings.claudeModel adminSettings;
     AdminSettings.maxTokens :=
       if truthy (body_maxTokens body) then JNum (parseIntOf (body_maxTokens body))
       else AdminSettings.maxTokens adminSettings;
     AdminSettings.temperature :=
       if isDefined (body_temperature body)
       then JNum (parseFloatOf (body_temperature body))
       else AdminSettings.temperature adminSettings;
     AdminSettings.ragEnabled :=
       if isDefined (body_ragEnabled body) then body_ragEnabled body
       else AdminSettings.ragEnabled adminSettings;
     AdminSettings.similarityThreshold :=
       if truthy (body_similarityThreshold body)
       then JNum (parseFloatOf (body_similarityThreshold body))
       else AdminSettings.similarityThreshold adminSettings;
     AdminSettings.maxTrainingExamples :=
       if truthy (body_maxTrainingExamples body)
       then JNum (parseIntOf (body_maxTrainingExamples body))
       else AdminSettings.maxTrainingExamples adminSettings |}.

(** The handler builds the new [ragSettings] and copies three of its
    fields into [adminSettings]. *)
Definition updateRagSettings (body : RagSettingsBody)
    (st : RagSettings.t * AdminSettings.t) : RagSettings.t * AdminSettings.t :=
  let '(ragSettings, adminSettings) := st in
  let ragSettings' :=
    {| RagSettings.enabled :=
         if isDefined (body_enabled body) then body_enabled body
         else RagSettings.enabled ragSettings;
       RagSettings.mode :=
         if truthy (body_mode body) then body_mode body
         else RagSettings.mode ragSettings;
       RagSettings.similarityThreshold :=
         if isDefined (body_threshold body) then body_threshold body
         else RagSettings.similarityThreshold ragSettings;
       RagSettings.maxExamples :=
         if isDefined (body_maxExamples body) then body_maxExamples body
         else RagSettings.maxExamples ragSettings |} in
  (ragSettings',
   {| AdminSettings.systemPrompt := AdminSettings.systemPrompt adminSettings;
      AdminSettings.claudeModel := AdminSettings.claudeModel adminSettings;
      AdminSettings.maxTokens := AdminSettings.maxTokens adminSettings;
      AdminSettings.temperature := AdminSettings.temperature adminSettings;
      AdminSettings.ragEnabled := RagSettings.enabled ragSettings';
      AdminSettings.similarityThreshold := RagSettings.similarityThreshold ragSettings';
      AdminSettings.maxTrainingExamples := RagSettings.maxExamples ragSettings' |}).

End Settings.

(** The settings the server starts with (the prompt text is elided). *)
Definition initialAdminSettings : AdminSettings.t :=
  {| AdminSettings.systemPrompt := JStr (str "You are an expert pharmaceutical market research analyst");
     AdminSettings.claudeModel := JStr (str "claude-3-5-sonnet-20241022");
     AdminSettings.maxTokens := JNum 4000;
     AdminSettings.temperature := JNum 0.7;
     AdminSettings.ragEnabled := JBool true;
     AdminSettings.similarityThreshold := JNum 0.7;
     AdminSettings.maxTrainingExamples := JNum 5 |}.

Definition initialRagSettings : RagSettings.t :=
  {| RagSettings.enabled := AdminSettings.ragEnabled initialAdminSettings;
     RagSettings.mode := JStr (str "learning");
     RagSettings.similarityThreshold := AdminSettings.similarityThreshold initialAdminSettings;
     RagSettings.maxExamples := AdminSettings.maxTrainingExamples initialAdminSettings |}.

(* ================================================================== *)
(** * Chart generation helpers *)
(* ================================================================== *)

(** ** extractPercentages *)

(** [\d] without the unicode flag: the ten ASCII digits. *)
Definition isDigit (c : char) : bool := ((48 <=? c) && (c <=? 57))%N.

(** The longest prefix whose elements satisfy [p]: what a greedy [p*]
    consumes; [dropWhile p] is what it leaves. *)
Fixpoint takeWhile {A} (p : A -> bool) (l : list A) : list A :=
  match l with
  | [] => []
  | x :: l' => if p x then x :: takeWhile p l' else []
  end.

(** [\s*%] at the start of [s]: the number of code units it consumes.
    [\s] is [WhiteSpace] and [LineTerminator]; giving back white space
    cannot help, a white space not being a percent sign. *)
Definition percentTail (s : jsstring) : option nat :=
  match dropWhile isWhiteSpace s with
  | c :: _ =>
      if (c =? 37)%N then Some (length (takeWhile isWhiteSpace s) + 1) else None
  | [] => None
  end.

(** One attempt of [/(\d+(?:\.\d+)?)\s*%/] at the start of [s]: the text
    of group 1 and the length of the whole match.  Each [\d+] takes all
    the digits there are, since after fewer digits the next code unit is a
    digit, which none of [\.], [\s] and [%] accepts.  The fraction is
    tried first, and the match goes on without it when it fails. *)
Definition matchPercentAt (s : jsstring) : option (jsstring * nat) :=
  let whole := takeWhile isDigit s in
  let rest := dropWhile isDigit s in
  match whole with
  | [] => None
  | _ :: _ =>
      let withFraction :=
        match rest with
        | c :: rest' =>
            if (c =? 46)%N then
              let fraction := takeWhile isDigit rest' in
              match fraction with
              | [] => None
              | _ :: _ =>
                  match percentTail (dropWhile isDigit rest') with
                  | Some n =>
                      Some (whole ++ c :: fraction,
                            length whole + 1 + length fraction + n)
                  | None => None
                  end
              end
            else None
        | [] => None
        end in
      match withFraction with
      | Some found => Some found
      | None =>
          match percentTail rest with
          | Some n => Some (whole, length whole + n)
          | None => None
          end
      end
  end.

(** The [while ((match = regex.exec(text)) !== null)] loop of a global
    regular expression, collecting [match[1]]: the search starts at
    [lastIndex], finds the leftmost match, and moves [lastIndex] behind
    it.  [skip] is the distance from the current position to [lastIndex]. *)
Fixpoint percentCaptures (skip : nat) (s : jsstring) : list jsstring :=
  match s with
  | [] => []
  | _ :: s' =>
      match skip with
      | S k => percentCaptures k s'
      | O =>
          match matchPercentAt s with
          | Some (capture, len) => capture :: percentCaptures (len - 1) s'
          | None => percentCaptures 0 s'
          end
      end
  end.

(** ** generateChartData *)

Module Treatments.
Record t := mk {
  labels : list jsstring;
  data : list float;
  colors : list jsstring
}.
End Treatments.

Module Comparison.
Record t := mk {
  labels : list jsstring;
  academic : jsval;
  community : jsval;
  colors : list jsstring
}.
End Comparison.

Module Regional.
Record t := mk {
  labels : list jsstring;
  data : list float;
  colors : list jsstring
}.
End Regional.

Module Trends.
Record t := mk {
  labels : list jsstring;
  combination : list float;
  monotherapy : list float;
  colors : list jsstring
}.
End Trends.

Module ChartData.
Record t := mk {
  treatments : Treatments.t;
  comparison : Comparison.t;
  regional : Regional.t;
  trends : Trends.t
}.
End ChartData.

(** [array.name] for an array of numbers and a name that is not an index:
    ["length"] is the number of elements, and a name that [Array.prototype]
    does not have either is [undefined] (the names of its methods are not
    modelled; none is read). *)
Definition arrayProp (array : list float) (name : jsstring) : jsval :=
  if jsstring_eqb name (str "length")
  then JNum (Number (Z.of_nat (length array)))
  else JUndefined.

(** [a || b] *)
Definition orElse (a b : jsval) : jsval := if truthy a then a else b.

Section Charts.

(** [parseFloat] on the text of a match. *)
Variable parseFloat : jsstring -> float.

(** [text] is the analysis, a string; [keywords] is not read. *)
Definition extractPercentages (text : jsstring) (keywords : list jsstring)
  : list float :=
  let percentages := map parseFloat (percentCaptures 0 text) in
  slice0 4 percentages.

Definition generateChartData (analysis : jsstring) : ChartData.t :=
  let treatmentPreferences :=
    extractPercentages analysis
      (map str ["combination"; "monotherapy"; "experimental"]%string) in
  let confidenceLevels :=
    extractPercentages analysis
      (map str ["high confidence"; "moderate confidence"; "low confidence"]%string) in
  {| ChartData.treatments :=
       {| Treatments.labels :=
            map str ["Combination Therapy"; "Monotherapy"; "Experimental";
                     "Standard Care"]%string;
          Treatments.data :=
            if (3 <=? length treatmentPreferences)%nat
            then treatmentPreferences
            else [41; 28; 18; 13]%float;
          Treatments.colors :=
            map str ["#3b82f6"; "#10b981"; "#f59e0b"; "#ef4444"]%string |};
     ChartData.comparison :=
       {| Comparison.labels :=
            map str ["High Confidence"; "Moderate Confidence";
                     "Low Confidence"]%string;
          Comparison.academic :=
            orElse (arrayProp confidenceLevels (str "academic"))
                   (vectorValue [72; 21; 7]%float);
          Comparison.community :=
            orElse (arrayProp confidenceLevels (str "community"))
                   (vectorValue [44; 35; 21]%float);
          Comparison.colors := map str ["#3b82f6"; "#10b981"]%string |};
     ChartData.regional :=
       {| Regional.labels :=
            map str ["Northeast"; "West Coast"; "Midwest"; "Southeast";
                     "Southwest"]%string;
          Regional.data := [68; 65; 52; 45; 58]%float;
          Regional.colors :=
            map str ["#3b82f6"; "#10b981"; "#f59e0b"; "#ef4444";
                     "#8b5cf6"]%string |};
     ChartData.trends :=
       {| Trends.labels := map str ["Q1 2024"; "Q2 2024"; "Q3 2024"; "Q4 2024"]%string;
          Trends.combination := [25; 31; 37; 41]%float;
          Trends.monotherapy := [65; 58; 52; 43]%float;
          Trends.colors := map str ["#3b82f6"; "#ef4444"]%string |} |}.

End Charts.

(* ================================================================== *)
(** * Auxiliary notions used to state the properties *)
(* ================================================================== *)

(** An order-preserving integer key for the valid non-NaN binary64
    values: the value scaled by 2^1074, infinities beyond every finite one. *)
Definition infKey : Z := (2 ^ 2100)%Z.

Definition SFkey (x : spec_float) : Z :=
  match x with
  | S754_zero _ => 0%Z
  | S754_nan => 0%Z
  | S754_infinity s => cond_Zopp s infKey
  | S754_finite s m e => cond_Zopp s (Zpos m * 2 ^ (e + 1074))%Z
  end.

Definition SFisNaN (x : spec_float) : bool :=
  match x with S754_nan => true | _ => false end.

Definition SFpositive (x : spec_float) : bool := SFltb (S754_zero false) x.

Definition SFisZero (x : spec_float) : bool :=
  match x with S754_zero _ => true | _ => false end.

Definition SFzeroOrNaN (x : spec_float) : bool := SFisZero x || SFisNaN x.

(** [x === 0] (either sign). *)
Definition isZero (x : float) : bool := (x =? 0)%float.

Definition fkey (x : float) : Z := SFkey (Prim2SF x).

(** Descending order of an integer key. *)
Definition descendingBy {A} (key : A -> Z) (a b : A) : Prop := (key b <= key a)%Z.

(** The filter of the ranking: [doc.similarity > threshold]. *)
Definition aboveThreshold (threshold : float) (c : ScoredChunk) : bool :=
  (threshold <? similarity c)%float.

(** The chunks of a similarity tie. *)
Definition tiedAt (s : float) (c : ScoredChunk) : bool :=
  (similarity c =? s)%float.

(** A chunk that carries nothing but its embedding. *)
Definition chunkOf (name : string) (v : list float) : Chunk.t :=
  {| Chunk.id := str name; Chunk.fileName := str name; Chunk.content := [];
     Chunk.embedding := v; Chunk.category := str "general";
     Chunk.chunkIndex := 0; Chunk.totalChunks := 1;
     Chunk.processedAt := []; Chunk.keywords := [] |}.

(** The number of occurrences of [term] in [s], counted left to right
    without overlap. *)
Fixpoint occurrencesFuel (fuel : nat) (term s : jsstring) : nat :=
  match fuel with
  | O => 0
  | S fuel' =>
      match s with
      | [] => 0
      | _ :: s' =>
          if startsWith term s
          then S (occurrencesFuel fuel' term (skipn (length term) s))
          else occurrencesFuel fuel' term s'
      end
  end.

Definition occurrences (term s : jsstring) : nat :=
  occurrencesFuel (length s) term s.

(** The chunks of the store that carry a source name. *)
Definition fromSource (name : jsstring) (d : Chunk.t) : bool :=
  jsstring_eqb (Chunk.fileName d) name.

(** A training example and a chunk that carry a source name only. *)
Definition exampleOf (name : string) : TrainingExample.t :=
  {| TrainingExample.content := str "text"; TrainingExample.fileName := str name;
     TrainingExample.uploadedAt := []; TrainingExample.category := str "training";
     TrainingExample.keywords := [] |}.

(** A document of three sentences of 300 characters each. *)
Definition threeChunkText : jsstring :=
  repeat 97%N 300 ++ [46%N] ++ repeat 98%N 300 ++ [46%N] ++ repeat 99%N 300 ++ [46%N].

Definition emptyState : ServerState :=
  {| trainingExamples := []; documentStore := [] |}.

(** [value !== undefined ? value : previous] *)
Definition orPrevious (value previous : jsval) : jsval :=
  if isDefined value then value else previous.

(** ** The chunker as the specification words it *)

(** Splitting at every terminal [.], [!] or [?]. *)
Fixpoint specPieces (s : jsstring) : list jsstring :=
  match s with
  | [] => [[]]
  | c :: s' =>
      if isTerminator c then [] :: specPieces s'
      else
        match specPieces s' with
        | piece :: pieces => (c :: piece) :: pieces
        | [] => [[c]]
        end
  end.

(** The sentences: the pieces that are not empty once trimmed. *)
Definition specSentences (text : jsstring) : list jsstring :=
  filter nonBlank (specPieces text).

(** A chunk is emitted trimmed, and only when something is left of it. *)
Definition emitChunk (currentChunk : jsstring) : list jsstring :=
  if nonEmpty (trim currentChunk) then [trim currentChunk] else [].

(** Greedy accumulation: the next sentence joins the current chunk unless
    that would meet or exceed [maxChunkSize], in which case the current
    chunk is emitted and the sentence starts a new one; the chunk left at the
    end is emitted too. *)
Fixpoint specChunks (maxChunkSize : Z) (currentChunk : jsstring)
    (sentences : list jsstring) : list jsstring :=
  match sentences with
  | [] => emitChunk currentChunk
  | sentence :: rest =>
      if (maxChunkSize <=? Z.of_nat (length currentChunk) + Z.of_nat (length sentence))%Z
      then emitChunk currentChunk ++ specChunks maxChunkSize (sentence ++ separator) rest
      else specChunks maxChunkSize (currentChunk ++ sentence ++ separator) rest
  end.

(** A group of sentences, each followed by the separator, and the chunk
    it is emitted as. *)
Definition joinGroup (group : list jsstring) : jsstring :=
  concat (map (fun sentence => sentence ++ separator) group).

Definition renderGroup (group : list jsstring) : jsstring := trim (joinGroup group).

Definition blank (s : jsstring) : bool := forallb isWhiteSpace s.

Definition terminatorFree (s : jsstring) : bool :=
  forallb (fun c => negb (isTerminator c)) s.

(** A sentence inside a chunk, with the space of the separator before it
    and the full stop of its own separator after it. *)
Definition spaced (s : jsstring) : jsstring := 32%N :: s ++ [46%N].


(** A decimal numeral as [parseFloat] reads it whole: digits, or digits,
    a full stop and digits. *)
Definition decimalNumeral (s : jsstring) : bool :=
  nonEmpty (takeWhile isDigit s)
  && match dropWhile isDigit s with
     | [] => true
     | c :: fraction => (c =? 46)%N && nonEmpty fraction && forallb isDigit fraction
     end.

(** The number of percent signs of a text. *)
Definition percentSigns (text : jsstring) : nat := count_occ N.eq_dec text 37%N.

(* ================================================================== *)
(** * Binary64 facts: ordering and the sign of a difference *)
(* ================================================================== *)

Section Binary64.
Local Open Scope Z_scope.

Lemma digits2_pos_size m : digits2_pos m = Pos.size m.
Proof. induction m; simpl; congruence. Qed.

Lemma digits2_pos_bounds m :
  2 ^ (Zpos (digits2_pos m) - 1) <= Zpos m < 2 ^ Zpos (digits2_pos m).
Proof.
  rewrite digits2_pos_size. split.
  - pose proof (Pos.size_le m) as H.
    assert (Hp : (2 ^ Zpos (Pos.size m) <= 2 * Zpos m)%Z).
    { change 2 with (Zpos 2). rewrite <- Pos2Z.inj_pow. rewrite <- Pos2Z.inj_mul. apply Pos2Z.pos_le_pos. exact H. }
    replace (Zpos (Pos.size m)) with (Z.succ (Zpos (Pos.size m) - 1)) in Hp by lia.
    rewrite Z.pow_succ_r in Hp by lia. lia.
  - pose proof (Pos.size_gt m) as H.
    change 2 with (Zpos 2). rewrite <- Pos2Z.inj_pow. apply Pos2Z.pos_lt_pos. exact H.
Qed.

Lemma canonical_cases m e :
  canonical_mantissa prec emax m e = true ->
  -1074 <= e /\ Zpos (digits2_pos m) <= 53 /\ (-1074 < e -> Zpos (digits2_pos m) = 53).
Proof.
  unfold canonical_mantissa, fexp, SpecFloat.emin, prec, emax. intros H.
  apply Z.eqb_eq in H. lia.
Qed.

Lemma valid_finite s m e :
  valid_binary (S754_finite s m e) = true ->
  -1074 <= e <= 971 /\ Zpos m < 9007199254740992 /\
  (-1074 < e -> 4503599627370496 <= Zpos m).
Proof.
  unfold valid_binary, bounded. intros H. apply andb_prop in H as [Hc He].
  apply canonical_cases in Hc. apply Z.leb_le in He. unfold prec, emax in He.
  pose proof (digits2_pos_bounds m) as [Hl Hu].
  destruct Hc as (H1 & H2 & H3). repeat split; try lia.
  - eapply Z.lt_le_trans; [exact Hu|].
    change 9007199254740992 with (2 ^ 53). apply Z.pow_le_mono_r; lia.
  - intros Hgt. specialize (H3 Hgt). rewrite H3 in Hl. exact Hl.
Qed.

Lemma finite_key_bound s m e :
  valid_binary (S754_finite s m e) = true ->
  0 < Zpos m * 2 ^ (e + 1074) < infKey.
Proof.
  intros H. apply valid_finite in H as (He & Hm & _).
  assert (Hp : 0 < 2 ^ (e + 1074)) by (apply Z.pow_pos_nonneg; lia).
  assert (Hq : 2 ^ (e + 1074) <= 2 ^ 2045) by (apply Z.pow_le_mono_r; lia).
  assert (Hr : 9007199254740992 * 2 ^ 2045 < infKey).
  { unfold infKey. change 9007199254740992 with (2 ^ 53). rewrite <- Z.pow_add_r by lia.
    apply Z.pow_lt_mono_r; lia. }
  revert Hp Hq Hr. generalize (2 ^ (e + 1074)) (2 ^ 2045) infKey.
  intros; nia.
Qed.

Lemma finite_key_compare m1 e1 m2 e2 :
  valid_binary (S754_finite false m1 e1) = true ->
  valid_binary (S754_finite false m2 e2) = true ->
  match Z.compare e1 e2 with
  | Lt => Lt
  | Gt => Gt
  | Eq => Pos.compare_cont Eq m1 m2
  end = (Zpos m1 * 2 ^ (e1 + 1074) ?= Zpos m2 * 2 ^ (e2 + 1074)).
Proof.
  intros H1 H2.
  apply valid_finite in H1 as (He1 & Hm1 & Hn1).
  apply valid_finite in H2 as (He2 & Hm2 & Hn2).
  destruct (Z.compare_spec e1 e2) as [Heq | Hlt | Hgt].
  - subst e2. change (Pos.compare_cont Eq m1 m2) with (Zpos m1 ?= Zpos m2).
    assert (Hp : 0 < 2 ^ (e1 + 1074)) by (apply Z.pow_pos_nonneg; lia).
    revert Hp. generalize (2 ^ (e1 + 1074)). intros k Hp.
    symmetry. destruct (Z.compare_spec (Zpos m1) (Zpos m2)) as [E | L | G].
    + rewrite E. apply Z.compare_refl.
    + apply Z.compare_lt_iff. nia.
    + apply Z.compare_gt_iff. nia.
  - symmetry. apply Z.compare_lt_iff.
    replace (e2 + 1074) with ((e2 - e1) + (e1 + 1074)) by lia.
    rewrite (Z.pow_add_r 2 (e2 - e1) (e1 + 1074)) by lia.
    assert (Ha : 0 < 2 ^ (e1 + 1074)) by (apply Z.pow_pos_nonneg; lia).
    assert (Hb : 2 ^ 1 <= 2 ^ (e2 - e1)) by (apply Z.pow_le_mono_r; lia).
    specialize (Hn2 ltac:(lia)). rewrite Z.pow_1_r in Hb.
    rewrite Z.mul_assoc. apply Z.mul_lt_mono_pos_r; [exact Ha|].
    revert Hb. generalize (2 ^ (e2 - e1)). intros; nia.
  - symmetry. apply Z.compare_gt_iff.
    replace (e1 + 1074) with ((e1 - e2) + (e2 + 1074)) by lia.
    rewrite (Z.pow_add_r 2 (e1 - e2) (e2 + 1074)) by lia.
    assert (Ha : 0 < 2 ^ (e2 + 1074)) by (apply Z.pow_pos_nonneg; lia).
    assert (Hb : 2 ^ 1 <= 2 ^ (e1 - e2)) by (apply Z.pow_le_mono_r; lia).
    specialize (Hn1 ltac:(lia)). rewrite Z.pow_1_r in Hb.
    rewrite Z.mul_assoc. apply Z.mul_lt_mono_pos_r; [exact Ha|].
    revert Hb. generalize (2 ^ (e1 - e2)). intros; nia.
Qed.

Lemma infKey_pos : 0 < infKey.
Proof. unfold infKey. apply Z.pow_pos_nonneg; lia. Qed.

Ltac key_cmp :=
  cbn [SFcompare SFkey cond_Zopp]; f_equal; symmetry;
  first [ apply Z.compare_eq_iff; lia
        | apply Z.compare_gt_iff; lia
        | apply Z.compare_lt_iff; lia ].

Lemma SFcompare_key x y :
  valid_binary x = true -> valid_binary y = true ->
  SFisNaN x = false -> SFisNaN y = false ->
  SFcompare x y = Some (SFkey x ?= SFkey y).
Proof.
  intros Vx Vy Nx Ny. pose proof infKey_pos as Hinf.
  destruct x as [sx | sx | | sx mx ex]; try discriminate;
  destruct y as [sy | sy | | sy my ey]; try discriminate;
  try (pose proof (finite_key_bound _ _ _ Vx) as Hbx);
  try (pose proof (finite_key_bound _ _ _ Vy) as Hby).
  1-8: try destruct sx; try destruct sy; key_cmp.
  destruct sx, sy; cbn [SFcompare SFkey cond_Zopp]; f_equal.
  - rewrite Z.compare_opp.
    rewrite <- (finite_key_compare my ey mx ex) by assumption.
    rewrite (Z.compare_antisym ey ex).
    destruct (ey ?= ex); simpl; try reflexivity.
    rewrite (Pos.compare_cont_antisym). reflexivity.
  - symmetry. apply Z.compare_lt_iff. lia.
  - symmetry. apply Z.compare_gt_iff. lia.
  - apply finite_key_compare; assumption.
Qed.

Lemma shr_1_m mrs : 0 <= shr_m mrs -> shr_m (shr_1 mrs) = shr_m mrs / 2.
Proof.
  destruct mrs as [m r s]; cbn [shr_m]. intros Hm.
  destruct m as [| p | p]; [reflexivity | | lia].
  destruct p as [p | p |]; cbn [shr_1 shr_m].
  - rewrite (Pos2Z.inj_xI p). apply Z.div_unique with (r := 1); lia.
  - rewrite (Pos2Z.inj_xO p). apply Z.div_unique with (r := 0); lia.
  - reflexivity.
Qed.

Lemma iter_shr_m p : forall mrs,
  0 <= shr_m mrs -> shr_m (iter_pos shr_1 p mrs) = shr_m mrs / 2 ^ Zpos p.
Proof.
  induction p as [p IH | p IH |]; intros mrs Hm; cbn [iter_pos].
  - assert (H1 : 0 <= shr_m (shr_1 mrs)).
    { rewrite shr_1_m by assumption. apply Z.div_pos; lia. }
    assert (H2 : 0 <= shr_m (iter_pos shr_1 p (shr_1 mrs))).
    { rewrite IH by assumption. apply Z.div_pos; [assumption|]. apply Z.pow_pos_nonneg; lia. }
    rewrite IH, IH, shr_1_m by assumption.
    assert (Hp : 0 < 2 ^ Zpos p) by (apply Z.pow_pos_nonneg; lia).
    rewrite !Z.div_div by lia. f_equal.
    rewrite (Pos2Z.inj_xI p). replace (2 * Zpos p + 1) with (1 + Zpos p + Zpos p) by lia.
    rewrite !Z.pow_add_r by lia. rewrite Z.pow_1_r. ring.
  - assert (H2 : 0 <= shr_m (iter_pos shr_1 p mrs)).
    { rewrite IH by assumption. apply Z.div_pos; [assumption|]. apply Z.pow_pos_nonneg; lia. }
    rewrite IH, IH by assumption.
    assert (Hp : 0 < 2 ^ Zpos p) by (apply Z.pow_pos_nonneg; lia).
    rewrite !Z.div_div by lia. f_equal.
    rewrite (Pos2Z.inj_xO p). replace (2 * Zpos p) with (Zpos p + Zpos p) by lia.
    rewrite !Z.pow_add_r by lia. ring.
  - rewrite shr_1_m by assumption. reflexivity.
Qed.

Lemma shr_record_of_loc_m m l : shr_m (shr_record_of_loc m l) = m.
Proof. destruct l as [| []]; reflexivity. Qed.

(** Shifting a positive mantissa to its canonical exponent keeps it positive. *)
Lemma shr_fexp_pos m e l :
  0 < m -> -1074 <= e ->
  0 < shr_m (fst (shr_fexp prec emax m e l)) /\ -1074 <= snd (shr_fexp prec emax m e l).
Proof.
  intros Hm He. destruct m as [| p | p]; try lia.
  unfold shr_fexp, shr, fexp, SpecFloat.emin, prec, emax. cbn [Zdigits2].
  pose proof (digits2_pos_bounds p) as [Hl _].
  remember (Zpos (digits2_pos p)) as d eqn:Hd.
  assert (Hd1 : 1 <= d) by (subst d; lia).
  destruct (Z.max (d + e - 53) (3 - 1024 - 53) - e) as [| n | n] eqn:Hn;
    cbn [fst snd]; rewrite ?shr_record_of_loc_m; try (split; lia).
  split; [| lia].
  rewrite iter_shr_m by (rewrite shr_record_of_loc_m; lia).
  rewrite shr_record_of_loc_m.
  apply Z.div_str_pos. split; [apply Z.pow_pos_nonneg; lia|].
  eapply Z.le_trans; [| exact Hl]. apply Z.pow_le_mono_r; lia.
Qed.

Lemma round_nearest_even_pos m l : 0 < m -> 0 < round_nearest_even m l.
Proof.
  intros Hm. destruct l as [| []]; cbn [round_nearest_even]; try lia.
  destruct (Z.even m); lia.
Qed.

(** Rounding a positive mantissa at an exponent not below [emin] never
    produces a zero or a NaN: the result keeps the sign it was given. *)
Lemma binary_round_aux_signed sx m e l :
  0 < m -> -1074 <= e ->
  (exists m' e', binary_round_aux prec emax sx m e l = S754_finite sx m' e')
  \/ binary_round_aux prec emax sx m e l = S754_infinity sx.
Proof.
  intros Hm He. unfold binary_round_aux.
  pose proof (shr_fexp_pos m e l Hm He) as [H1 H2].
  destruct (shr_fexp prec emax m e l) as [mrs' e']. cbn [fst snd] in H1, H2.
  pose proof (round_nearest_even_pos _ (loc_of_shr_record mrs') H1) as H3.
  pose proof (shr_fexp_pos _ e' loc_Exact H3 H2) as [H4 H5].
  destruct (shr_fexp prec emax _ e' loc_Exact) as [mrs'' e'']. cbn [fst snd] in H4, H5.
  destruct (shr_m mrs'') as [| q | q]; try lia.
  destruct (e'' <=? emax - prec); [left; eauto | right; reflexivity].
Qed.

Lemma binary_round_signed sx m e :
  -1074 <= e ->
  (exists m' e', binary_round prec emax sx m e = S754_finite sx m' e')
  \/ binary_round prec emax sx m e = S754_infinity sx.
Proof.
  intros He. unfold binary_round, shl_align.
  set (t := fexp prec emax (Zpos (digits2_pos m) + e)).
  assert (Ht : -1074 <= t) by (subst t; unfold fexp, SpecFloat.emin, prec, emax; lia).
  destruct (t - e); apply binary_round_aux_signed; lia.
Qed.

Lemma binary_normalize_positive m e :
  -1074 <= e ->
  SFpositive (binary_normalize prec emax m e false) = (0 <? m).
Proof.
  intros He. destruct m as [| p | p]; cbn [binary_normalize].
  - reflexivity.
  - destruct (binary_round_signed false p e He) as [(m' & e' & ->) | ->]; reflexivity.
  - unfold binary_round. destruct (shl_align _ _ _) as [mz ez].
    unfold binary_round_aux.
    destruct (shr_fexp prec emax (Zpos mz) ez loc_Exact) as [mrs' e'].
    destruct (shr_fexp prec emax _ e' loc_Exact) as [mrs'' e''].
    destruct (shr_m mrs''); try reflexivity.
    destruct (e'' <=? emax - prec); reflexivity.
Qed.

Lemma iter_xO m d : Zpos (Pos.iter xO m d) = Zpos m * 2 ^ Zpos d.
Proof.
  induction d as [| d IH] using Pos.peano_ind.
  - cbn [Pos.iter]. rewrite (Pos2Z.inj_xO m), Z.pow_1_r. ring.
  - rewrite Pos.iter_succ, (Pos2Z.inj_xO (Pos.iter xO m d)), IH, Pos2Z.inj_succ, Z.pow_succ_r by lia. ring.
Qed.

Lemma shl_align_fst m e ez :
  ez <= e -> Zpos (fst (shl_align m e ez)) = Zpos m * 2 ^ (e - ez).
Proof.
  intros H. unfold shl_align.
  destruct (ez - e) as [| d | d] eqn:Hd; cbn [fst]; try lia.
  - replace (e - ez) with 0 by lia. rewrite Z.pow_0_r. lia.
  - rewrite iter_xO. f_equal. f_equal. lia.
Qed.

(** The comparator [b - a] of the ranking is positive exactly when [a < b]. *)
Lemma SFsub_positive x y :
  valid_binary x = true -> valid_binary y = true ->
  SFpositive (SF64sub y x) = SFltb x y.
Proof.
  intros Vx Vy.
  destruct x as [sx | sx | | sx mx ex]; destruct y as [sy | sy | | sy my ey];
    try reflexivity; try (destruct sx; reflexivity); try (destruct sy; reflexivity);
    try (destruct sx, sy; reflexivity).
  unfold SFltb. rewrite SFcompare_key by (assumption || reflexivity).
  unfold SF64sub, SFsub.
  pose proof (valid_finite _ _ _ Vx) as (Hex & _).
  pose proof (valid_finite _ _ _ Vy) as (Hey & _).
  rewrite binary_normalize_positive by lia.
  rewrite !shl_align_fst by lia.
  cbn [SFkey].
  set (ez := Z.min ey ex).
  assert (Hk : forall s m e, ez <= e -> -1074 <= ez ->
     cond_Zopp s (Zpos m * 2 ^ (e + 1074)) = cond_Zopp s (Zpos m * 2 ^ (e - ez)) * 2 ^ (ez + 1074)).
  { intros s m e H1 H2. replace (e + 1074) with ((e - ez) + (ez + 1074)) by lia.
    rewrite (Z.pow_add_r 2 (e - ez) (ez + 1074)) by lia. destruct s; cbn [cond_Zopp]; ring. }
  rewrite (Hk sx mx ex), (Hk sy my ey) by (subst ez; lia).
  assert (Hp : 0 < 2 ^ (ez + 1074)) by (apply Z.pow_pos_nonneg; subst ez; lia).
  revert Hp. generalize (2 ^ (ez + 1074)).
  generalize (cond_Zopp sx (Zpos mx * 2 ^ (ex - ez))).
  generalize (cond_Zopp sy (Zpos my * 2 ^ (ey - ez))).
  intros a b k Hk'.
  destruct (Z.compare_spec (b * k) (a * k)); destruct (Z.ltb_spec 0 (a - b)); try reflexivity; nia.
Qed.

End Binary64.

(* ================================================================== *)
(** * Numbers: comparisons through the key *)
(* ================================================================== *)

Section Numbers.
Local Open Scope float_scope.

Lemma is_nan_spec x : is_nan x = SFisNaN (Prim2SF x).
Proof.
  unfold is_nan. rewrite eqb_spec. unfold SFeqb.
  destruct (Prim2SF x) as [s | s | | s m e]; try reflexivity.
  - destruct s; reflexivity.
  - cbn [SFcompare]. rewrite Z.compare_refl, Pos.compare_cont_refl.
    destruct s; reflexivity.
Qed.

Lemma isZero_spec x : isZero x = SFisZero (Prim2SF x).
Proof.
  unfold isZero. rewrite eqb_spec. unfold SFeqb.
  change (Prim2SF 0) with (S754_zero false).
  destruct (Prim2SF x) as [s | s | | s m e]; try reflexivity; destruct s; reflexivity.
Qed.

Lemma sub_positive a b : (0 <? b - a) = (a <? b).
Proof.
  rewrite !ltb_spec, sub_spec. change (Prim2SF 0) with (S754_zero false).
  apply SFsub_positive; apply Prim2SF_valid.
Qed.

Lemma ltb_key a b :
  is_nan a = false -> is_nan b = false -> (a <? b) = (fkey a <? fkey b)%Z.
Proof.
  rewrite !is_nan_spec, ltb_spec. intros Ha Hb. unfold SFltb, fkey.
  rewrite SFcompare_key by (assumption || apply Prim2SF_valid). reflexivity.
Qed.

Lemma leb_key a b :
  is_nan a = false -> is_nan b = false -> (a <=? b) = (fkey a <=? fkey b)%Z.
Proof.
  rewrite !is_nan_spec, leb_spec. intros Ha Hb. unfold SFleb, fkey, Z.leb.
  rewrite SFcompare_key by (assumption || apply Prim2SF_valid).
  destruct (SFkey (Prim2SF a) ?= SFkey (Prim2SF b))%Z; reflexivity.
Qed.

Lemma eqb_key a b :
  is_nan a = false -> is_nan b = false -> (a =? b) = (fkey a =? fkey b)%Z.
Proof.
  rewrite !is_nan_spec, eqb_spec. intros Ha Hb. unfold SFeqb, fkey.
  rewrite SFcompare_key by (assumption || apply Prim2SF_valid).
  destruct (Z.compare_spec (SFkey (Prim2SF a)) (SFkey (Prim2SF b))) as [E | E | E];
    destruct (Z.eqb_spec (SFkey (Prim2SF a)) (SFkey (Prim2SF b))); try reflexivity; lia.
Qed.

Lemma ltb_nan_r a b : is_nan b = true -> (a <? b) = false.
Proof.
  rewrite is_nan_spec, ltb_spec. unfold SFltb.
  destruct (Prim2SF b); try discriminate. intros _.
  destruct (Prim2SF a); reflexivity.
Qed.

Lemma eqb_nan_r a b : is_nan b = true -> (a =? b) = false.
Proof.
  rewrite is_nan_spec, eqb_spec. unfold SFeqb.
  destruct (Prim2SF b); try discriminate. intros _.
  destruct (Prim2SF a); reflexivity.
Qed.

Lemma ltb_true_not_nan a b : (a <? b) = true -> is_nan b = false.
Proof.
  intros H. destruct (is_nan b) eqn:E; [| reflexivity].
  rewrite (ltb_nan_r a b E) in H. discriminate.
Qed.

End Numbers.

(* ================================================================== *)
(** * The stable sort *)
(* ================================================================== *)

Section StableSort.
Context {A : Type}.
Variable comparefn : A -> A -> float.
Variable key : A -> Z.
Variable ok : A -> Prop.
Hypothesis comparefn_key :
  forall x y, ok x -> ok y -> (0 <? comparefn x y)%float = (key x <? key y)%Z.

Lemma sortInsert_perm x l : Permutation (sortInsert comparefn x l) (x :: l).
Proof.
  induction l as [| y l IH]; cbn [sortInsert].
  - apply Permutation_refl.
  - destruct (0 <? comparefn x y)%float.
    + eapply perm_trans; [apply perm_skip, IH | apply perm_swap].
    + apply Permutation_refl.
Qed.

Lemma sort_perm l : Permutation (sort comparefn l) l.
Proof.
  induction l as [| x l IH].
  - apply perm_nil.
  - change (sort comparefn (x :: l)) with (sortInsert comparefn x (sort comparefn l)).
    eapply perm_trans; [apply sortInsert_perm | apply perm_skip, IH].
Qed.

Lemma sort_ok l : Forall ok l -> Forall ok (sort comparefn l).
Proof.
  intros H. rewrite Forall_forall in *. intros x Hx. apply H.
  eapply Permutation_in; [apply sort_perm | exact Hx].
Qed.

Lemma sortInsert_sorted x l :
  ok x -> Forall ok l ->
  StronglySorted (descendingBy key) l -> StronglySorted (descendingBy key) (sortInsert comparefn x l).
Proof.
  intros Hx Hl Hs. induction Hs as [| y l Hs IH Hy]; cbn [sortInsert].
  - constructor; constructor.
  - inversion Hl as [| ? ? Hoy Hol]; subst.
    rewrite (comparefn_key x y Hx Hoy).
    destruct (Z.ltb_spec (key x) (key y)) as [Hlt | Hge].
    + constructor; [apply IH; assumption |].
      rewrite Forall_forall. intros z Hz.
      apply (Permutation_in _ (sortInsert_perm x l)) in Hz.
      destruct Hz as [<- | Hz]; [unfold descendingBy; lia |].
      rewrite Forall_forall in Hy. apply Hy, Hz.
    + constructor; [constructor; assumption |].
      constructor; [exact Hge |].
      rewrite Forall_forall in *. intros z Hz. specialize (Hy z Hz).
      unfold descendingBy in *. lia.
Qed.

Lemma sort_sorted l : Forall ok l -> StronglySorted (descendingBy key) (sort comparefn l).
Proof.
  induction l as [| x l IH]; intros H.
  - constructor.
  - change (sort comparefn (x :: l)) with (sortInsert comparefn x (sort comparefn l)).
    inversion H; subst. apply sortInsert_sorted; auto using sort_ok.
Qed.

Lemma sortInsert_tie z x l :
  ok x -> Forall ok l ->
  filter (fun a => key a =? z)%Z (sortInsert comparefn x l)
  = filter (fun a => key a =? z)%Z (x :: l).
Proof.
  intros Hx Hl. induction Hl as [| y l Hy Hl IH]; cbn [sortInsert]; [reflexivity |].
  rewrite (comparefn_key x y Hx Hy).
  destruct (Z.ltb_spec (key x) (key y)) as [Hlt | Hge]; [| reflexivity].
  cbn [filter] in *. rewrite IH.
  destruct (Z.eqb_spec (key y) z), (Z.eqb_spec (key x) z); try reflexivity; lia.
Qed.

Lemma sort_stable z l :
  Forall ok l ->
  filter (fun a => key a =? z)%Z (sort comparefn l) = filter (fun a => key a =? z)%Z l.
Proof.
  induction l as [| x l IH]; intros H; [reflexivity |].
  change (sort comparefn (x :: l)) with (sortInsert comparefn x (sort comparefn l)).
  inversion H; subst.
  rewrite sortInsert_tie by auto using sort_ok.
  cbn [filter]. rewrite IH by assumption. reflexivity.
Qed.

End StableSort.

Lemma slice0_firstn {A} (limit : nat) (l : list A) :
  slice0 (Z.of_nat limit) l = firstn limit l.
Proof.
  unfold slice0. destruct (Z.ltb_spec (Z.of_nat limit) 0) as [H | H]; [lia |].
  destruct (Nat.le_gt_cases limit (length l)) as [Hle | Hgt].
  - f_equal. lia.
  - rewrite (firstn_all2 (n := limit)) by lia. apply firstn_all2. lia.
Qed.

Lemma filter_ext_Forall {A} (f g : A -> bool) (l : list A) :
  Forall (fun a => f a = g a) l -> filter f l = filter g l.
Proof.
  induction 1 as [| a l Ha Hl IH]; cbn [filter]; [reflexivity |].
  rewrite Ha, IH. reflexivity.
Qed.

Lemma StronglySorted_impl {A} (R S : A -> A -> Prop) (P : A -> Prop) (l : list A) :
  (forall a b, P a -> P b -> R a b -> S a b) ->
  Forall P l -> StronglySorted R l -> StronglySorted S l.
Proof.
  intros HRS HP HR. induction HR as [| a l HR IH Ha]; constructor.
  - apply IH. inversion HP; assumption.
  - inversion HP as [| ? ? Pa Pl]; subst.
    rewrite Forall_forall in *. intros b Hb. apply HRS; auto.
Qed.

(** Every chunk that passes the threshold filter has a comparable similarity. *)
Lemma aboveThreshold_not_nan threshold l :
  Forall (fun c => is_nan (similarity c) = false) (filter (aboveThreshold threshold) l).
Proof.
  rewrite Forall_forall. intros c Hc. apply filter_In in Hc as [_ Hc].
  eapply ltb_true_not_nan. exact Hc.
Qed.

(** The ranking before truncation. *)
Lemma ranked_properties threshold (scored : list ScoredChunk) :
  let kept := filter (aboveThreshold threshold) scored in
  let ranked := sort (fun a b => (similarity b - similarity a)%float) kept in
  Permutation ranked kept
  /\ StronglySorted (fun a b => (similarity b <=? similarity a)%float = true) ranked
  /\ forall s, filter (tiedAt s) ranked = filter (tiedAt s) kept.
Proof.
  intros kept ranked.
  pose proof (aboveThreshold_not_nan threshold scored) as Hok. fold kept in Hok.
  assert (Hcmp : forall x y : ScoredChunk,
             is_nan (similarity x) = false -> is_nan (similarity y) = false ->
             (0 <? similarity y - similarity x)%float
             = (fkey (similarity x) <? fkey (similarity y))%Z).
  { intros x y Hx Hy. rewrite sub_positive. apply ltb_key; assumption. }
  assert (Hrk : Forall (fun c => is_nan (similarity c) = false) ranked).
  { apply (sort_ok (fun a b => (similarity b - similarity a)%float) _ kept Hok). }
  split; [apply sort_perm |]. split.
  - eapply StronglySorted_impl; [| exact Hrk |].
    2: apply (sort_sorted _ (fun c => fkey (similarity c)) _ Hcmp kept Hok).
    cbn beta. intros a b Ha Hb Hab. rewrite leb_key by assumption.
    apply Z.leb_le. exact Hab.
  - intros s. destruct (is_nan s) eqn:Hs.
    + transitivity (filter (fun _ : ScoredChunk => false) ranked).
      { apply filter_ext. intros c. apply eqb_nan_r. exact Hs. }
      transitivity (filter (fun _ : ScoredChunk => false) kept).
      { clear. induction ranked; cbn; [induction kept; cbn; auto | auto]. }
      apply filter_ext. intros c. symmetry. apply eqb_nan_r. exact Hs.
    + transitivity (filter (fun c => fkey (similarity c) =? fkey s)%Z ranked).
      { apply filter_ext_Forall. eapply Forall_impl; [| exact Hrk].
        cbn beta. intros c Hc. apply eqb_key; assumption. }
      unfold ranked.
      rewrite (sort_stable _ (fun c => fkey (similarity c)) _ Hcmp (fkey s) kept Hok).
      apply filter_ext_Forall. eapply Forall_impl; [| exact Hok].
      cbn beta. intros c Hc. symmetry. apply eqb_key; assumption.
Qed.

(* ================================================================== *)
(** * Similarity against a zero vector *)
(* ================================================================== *)

Section ZeroVector.

Lemma SFmul_zero_l x y : SFisZero x = true -> SFzeroOrNaN (SF64mul x y) = true.
Proof. destruct x; try discriminate. destruct y; reflexivity. Qed.

Lemma SFmul_zero_r x y : SFisZero y = true -> SFzeroOrNaN (SF64mul x y) = true.
Proof. destruct y; try discriminate. destruct x; reflexivity. Qed.

Lemma SFmul_zero_zero x : SFisZero x = true -> SFisZero (SF64mul x x) = true.
Proof. destruct x; try discriminate. reflexivity. Qed.

Lemma SFadd_zeroOrNaN x y :
  SFzeroOrNaN x = true -> SFzeroOrNaN y = true -> SFzeroOrNaN (SF64add x y) = true.
Proof.
  destruct x as [sx | | |]; try discriminate; destruct y as [sy | | |];
    try discriminate; intros _ _; try reflexivity.
  destruct sx, sy; reflexivity.
Qed.

Lemma SFadd_zero x y :
  SFisZero x = true -> SFisZero y = true -> SFisZero (SF64add x y) = true.
Proof.
  destruct x as [sx | | |]; try discriminate; destruct y as [sy | | |];
    try discriminate; intros _ _. destruct sx, sy; reflexivity.
Qed.

Lemma SFsqrt_zero x : SFisZero x = true -> SFisZero (SF64sqrt x) = true.
Proof. destruct x; try discriminate. reflexivity. Qed.

Lemma SFdiv_zeroOrNaN x y :
  SFzeroOrNaN x = true -> SFzeroOrNaN y = true -> SFisNaN (SF64div x y) = true.
Proof.
  destruct x; try discriminate; destruct y; try discriminate; reflexivity.
Qed.

(** The accumulators after the loop when the first vector is zero. *)
Lemma fold_zero_left (l : list (float * float)) : forall dotProduct norm1 norm2,
  Forall (fun ab => isZero (fst ab) = true) l ->
  SFzeroOrNaN (Prim2SF dotProduct) = true -> SFisZero (Prim2SF norm1) = true ->
  let '(d, n1, _) := fold_left similarityStep l (dotProduct, norm1, norm2) in
  SFzeroOrNaN (Prim2SF d) = true /\ SFisZero (Prim2SF n1) = true.
Proof.
  induction l as [| [a b] l IH]; intros d n1 n2 Hl Hd Hn; cbn [fold_left].
  - split; assumption.
  - inversion Hl as [| ? ? Ha Hl']; subst. cbn [fst] in Ha. rewrite isZero_spec in Ha.
    cbn [similarityStep]. apply IH; [assumption | |].
    + rewrite add_spec, mul_spec. apply SFadd_zeroOrNaN; [assumption |].
      apply SFmul_zero_l. exact Ha.
    + rewrite add_spec, mul_spec. apply SFadd_zero; [assumption |].
      apply SFmul_zero_zero. exact Ha.
Qed.

Lemma fold_zero_right (l : list (float * float)) : forall dotProduct norm1 norm2,
  Forall (fun ab => isZero (snd ab) = true) l ->
  SFzeroOrNaN (Prim2SF dotProduct) = true -> SFisZero (Prim2SF norm2) = true ->
  let '(d, _, n2) := fold_left similarityStep l (dotProduct, norm1, norm2) in
  SFzeroOrNaN (Prim2SF d) = true /\ SFisZero (Prim2SF n2) = true.
Proof.
  induction l as [| [a b] l IH]; intros d n1 n2 Hl Hd Hn; cbn [fold_left].
  - split; assumption.
  - inversion Hl as [| ? ? Hb Hl']; subst. cbn [snd] in Hb. rewrite isZero_spec in Hb.
    cbn [similarityStep]. apply IH; [assumption | |].
    + rewrite add_spec, mul_spec. apply SFadd_zeroOrNaN; [assumption |].
      apply SFmul_zero_r. exact Hb.
    + rewrite add_spec, mul_spec. apply SFadd_zero; [assumption |].
      apply SFmul_zero_zero. exact Hb.
Qed.

Lemma Forall_combine_fst {A B} (P : A -> Prop) (l1 : list A) (l2 : list B) :
  Forall P l1 -> Forall (fun ab => P (fst ab)) (combine l1 l2).
Proof.
  intros H. revert l2. induction H as [| a l1 Ha Hl IH]; intros [| b l2];
    cbn [combine]; constructor; auto.
Qed.

Lemma Forall_combine_snd {A B} (P : B -> Prop) (l1 : list A) (l2 : list B) :
  Forall P l2 -> Forall (fun ab => P (snd ab)) (combine l1 l2).
Proof.
  intros H. revert l1. induction H as [| b l2 Hb Hl IH]; intros [| a l1];
    cbn [combine]; constructor; auto.
Qed.

Lemma zero_vector_similarity_nan v1 v2 :
  length v1 = length v2 ->
  Forall (fun x => isZero x = true) v1 \/ Forall (fun x => isZero x = true) v2 ->
  is_nan (calculateSimilarity v1 v2) = true.
Proof.
  intros Hlen Hz. unfold calculateSimilarity.
  rewrite Hlen, Nat.eqb_refl. cbn [negb].
  rewrite is_nan_spec.
  destruct Hz as [Hz | Hz].
  - pose proof (fold_zero_left (combine v1 v2) 0 0 0
                  (Forall_combine_fst _ v1 v2 Hz) eq_refl eq_refl) as H.
    destruct (fold_left similarityStep (combine v1 v2) (0, 0, 0)%float) as [[d n1] n2].
    destruct H as [Hd Hn]. rewrite div_spec, mul_spec, !sqrt_spec.
    apply SFdiv_zeroOrNaN; [assumption |].
    apply SFmul_zero_l, SFsqrt_zero, Hn.
  - pose proof (fold_zero_right (combine v1 v2) 0 0 0
                  (Forall_combine_snd _ v1 v2 Hz) eq_refl eq_refl) as H.
    destruct (fold_left similarityStep (combine v1 v2) (0, 0, 0)%float) as [[d n1] n2].
    destruct H as [Hd Hn]. rewrite div_spec, mul_spec, !sqrt_spec.
    apply SFdiv_zeroOrNaN; [assumption |].
    apply SFmul_zero_r, SFsqrt_zero, Hn.
Qed.

(** Where the accumulated [norm1] or [norm2] is zero without the vector
    being zero (squares that underflow), the quotient is still no finite
    number: it is NaN or an infinity. *)
Lemma SFdiv_by_zeroOrNaN x y :
  SFzeroOrNaN y = true ->
  match SF64div x y with
  | S754_nan | S754_infinity _ => True
  | _ => False
  end.
Proof.
  destruct y; try discriminate; intros _; destruct x; exact I.
Qed.

Lemma zero_accumulated_norm_not_finite (dotProduct norm1 norm2 : float) :
  isZero norm1 = true \/ isZero norm2 = true ->
  match Prim2SF (dotProduct / (sqrt norm1 * sqrt norm2))%float with
  | S754_nan | S754_infinity _ => True
  | _ => False
  end.
Proof.
  rewrite !isZero_spec, div_spec, mul_spec, !sqrt_spec.
  intros [H | H]; apply SFdiv_by_zeroOrNaN.
  - apply SFmul_zero_l, SFsqrt_zero, H.
  - apply SFmul_zero_r, SFsqrt_zero, H.
Qed.

Example underflowing_norm_is_infinite :
  calculateSimilarity [0x1p-600%float] [0x1p+500%float] = infinity.
Proof. vm_compute. reflexivity. Qed.

Lemma In_slice0 {A} (e : Z) (l : list A) (x : A) : In x (slice0 e l) -> In x l.
Proof.
  unfold slice0. generalize (Z.to_nat
    (if (e <? 0)%Z then Z.max (Z.of_nat (length l) + e) 0
     else Z.min e (Z.of_nat (length l)))).
  intros n H. rewrite <- (firstn_skipn n l). apply in_or_app. left. exact H.
Qed.

(** What is returned was scored against the query and passed the filter. *)
Lemma retrieved_above_threshold store threshold q limit c :
  In c (retrieveRelevantContext store threshold q limit) ->
  similarity c = calculateSimilarity q (Chunk.embedding (doc c))
  /\ (threshold <? similarity c)%float = true.
Proof.
  unfold retrieveRelevantContext.
  destruct (Nat.eqb (length store) 0); [intros [] |].
  intros H. apply In_slice0 in H.
  apply (Permutation_in _ (sort_perm _ _)) in H.
  apply filter_In in H as [H Hthr]. split; [| exact Hthr].
  unfold scoreAll in H. apply in_map_iff in H as (d & <- & _). reflexivity.
Qed.

End ZeroVector.

(* ================================================================== *)
(** * Keyword counting, and the delete handler *)
(* ================================================================== *)

Lemma jsstring_eqb_eq a b : jsstring_eqb a b = true <-> a = b.
Proof.
  unfold jsstring_eqb. destruct (list_eq_dec N.eq_dec a b); split; congruence.
Qed.

Lemma jsstring_eqb_refl a : jsstring_eqb a a = true.
Proof. apply jsstring_eqb_eq. reflexivity. Qed.

Lemma matchCountFrom_skip keyword (s : jsstring) : forall skip,
  matchCountFrom keyword skip s = matchCountFrom keyword 0 (skipn skip s).
Proof.
  induction s as [| c s IH]; intros [| k]; try reflexivity.
  cbn [matchCountFrom skipn]. apply IH.
Qed.

Lemma occurrencesFuel_matchCount keyword : keyword <> [] ->
  forall fuel s, length s <= fuel ->
  occurrencesFuel fuel keyword s = matchCountFrom keyword 0 s.
Proof.
  intros Hk. induction fuel as [| fuel IH]; intros s Hs.
  - destruct s; [reflexivity | cbn in Hs; lia].
  - destruct s as [| c s]; [reflexivity |].
    cbn [occurrencesFuel matchCountFrom]. cbn [length] in Hs.
    destruct (startsWith keyword (c :: s)).
    + f_equal. rewrite matchCountFrom_skip.
      destruct keyword as [| k keyword]; [congruence |].
      replace (length (k :: keyword) - 1) with (length keyword) by (cbn [length]; lia).
      cbn [length skipn]. apply IH. rewrite length_skipn. lia.
    + apply IH. lia.
Qed.

Lemma matchCount_occurrences keyword s :
  keyword <> [] -> matchCount keyword s = occurrences keyword s.
Proof.
  intros Hk. unfold matchCount, occurrences.
  symmetry. apply occurrencesFuel_matchCount; [assumption | lia].
Qed.

Lemma keywords_nonempty : Forall (fun keyword => keyword <> []) keywords.
Proof. vm_compute. repeat constructor; discriminate. Qed.

(** Every chunk a document yields carries the document's name. *)
Lemma processChunks_fileName embed extractKeywords now fileName category total chunks :
  forall i,
  Forall (fun d => Chunk.fileName d = fileName)
    (processChunks embed extractKeywords now fileName category total i chunks).
Proof.
  induction chunks as [| chunk chunks IH]; intros i; cbn [processChunks];
    constructor; [reflexivity | apply IH].
Qed.

Lemma processChunks_length embed extractKeywords now fileName category total chunks :
  forall i,
  length (processChunks embed extractKeywords now fileName category total i chunks)
  = length chunks.
Proof.
  induction chunks as [| chunk chunks IH]; intros i; cbn [processChunks length];
    [reflexivity | f_equal; apply IH].
Qed.

Lemma filter_none {A} (f : A -> bool) (l : list A) :
  Forall (fun a => f a = false) l -> filter f l = [].
Proof.
  induction 1 as [| a l Ha Hl IH]; cbn [filter]; [reflexivity |].
  rewrite Ha. exact IH.
Qed.

Lemma filter_all {A} (f : A -> bool) (l : list A) :
  Forall (fun a => f a = true) l -> filter f l = l.
Proof.
  induction 1 as [| a l Ha Hl IH]; cbn [filter]; [reflexivity |].
  rewrite Ha, IH. reflexivity.
Qed.

Lemma filter_length_split {A} (f : A -> bool) (l : list A) :
  length l = length (filter (fun a => negb (f a)) l) + length (filter f l).
Proof.
  induction l as [| a l IH]; cbn [filter length]; [reflexivity |].
  destruct (f a); cbn [negb length]; lia.
Qed.

(** [splice] at an index inside the array removes exactly that element. *)
Lemma splice1_in_bounds {A} (z : Z) (array : list A) :
  (0 <= z < Z.of_nat (length array))%Z ->
  exists removed,
    nth_error array (Z.to_nat z) = Some removed
    /\ splice1 (PInt z) array
       = ([removed], firstn (Z.to_nat z) array ++ skipn (S (Z.to_nat z)) array).
Proof.
  intros Hz. unfold splice1. cbn [toInteger].
  destruct (Z.ltb_spec z 0) as [H | _]; [lia |].
  replace (Z.min z (Z.of_nat (length array))) with z by lia.
  replace (Z.min (Z.max 1 0) (Z.of_nat (length array) - z)) with 1%Z by lia.
  change (Z.to_nat 1) with 1. rewrite Nat.add_1_r.
  destruct (nth_error array (Z.to_nat z)) as [removed |] eqn:Hn.
  - exists removed. split; [reflexivity |]. f_equal.
    apply nth_error_split in Hn as (l1 & l2 & -> & Hl1).
    rewrite <- Hl1. rewrite skipn_app, skipn_all, Nat.sub_diag. reflexivity.
  - apply nth_error_None in Hn. lia.
Qed.

Lemma splice1_nan {A} (first : A) (rest : list A) :
  splice1 PNaN (first :: rest) = ([first], rest).
Proof.
  unfold splice1. cbn [toInteger length].
  change (0 <? 0)%Z with false. cbv iota.
  replace (Z.min 0 (Z.of_nat (S (length rest)))) with 0%Z by lia.
  replace (Z.min (Z.max 1 0) (Z.of_nat (S (length rest)) - 0)) with 1%Z by lia.
  reflexivity.
Qed.

(** The handler once the guard has let the index through. *)
Lemma delete_removed indexParam st removed remaining :
  numLt (parseInt indexParam) 0 = false ->
  numGe (parseInt indexParam) (Z.of_nat (length (trainingExamples st))) = false ->
  splice1 (parseInt indexParam) (trainingExamples st) = ([removed], remaining) ->
  deleteTrainingExample indexParam st
  = (Deleted (TrainingExample.fileName removed)
       (length (filter (fromSource (TrainingExample.fileName removed)) (documentStore st)))
       (length remaining),
     {| trainingExamples := remaining;
        documentStore :=
          filter (fun d => negb (fromSource (TrainingExample.fileName removed) d))
            (documentStore st) |}).
Proof.
  intros Hlt Hge Hsp. unfold deleteTrainingExample.
  rewrite Hlt, Hge, Hsp. cbn [orb]. f_equal. f_equal.
  rewrite (filter_length_split (fromSource (TrainingExample.fileName removed))
             (documentStore st)).
  unfold fromSource. lia.
Qed.

(* ================================================================== *)
(** * The chunker *)
(* ================================================================== *)

Section Trimming.

Lemma dropWhile_nil {A} (p : A -> bool) (l : list A) :
  dropWhile p l = [] <-> forallb p l = true.
Proof.
  induction l as [| x l IH]; cbn [dropWhile forallb]; [tauto |].
  destruct (p x); cbn [andb]; [exact IH |]. split; discriminate.
Qed.

Lemma forallb_dropWhile {A} (p : A -> bool) (l : list A) :
  forallb p (dropWhile p l) = forallb p l.
Proof.
  induction l as [| x l IH]; cbn [dropWhile forallb]; [reflexivity |].
  destruct (p x) eqn:E; cbn [andb forallb]; [exact IH |]. rewrite E. reflexivity.
Qed.

Lemma dropWhile_app_stop {A} (p : A -> bool) (l r : list A) :
  forallb p l = false -> dropWhile p (l ++ r) = dropWhile p l ++ r.
Proof.
  induction l as [| x l IH]; cbn [dropWhile forallb app]; [discriminate |].
  destruct (p x); cbn [andb]; [exact IH | reflexivity].
Qed.

Lemma dropWhile_idem {A} (p : A -> bool) (l : list A) :
  dropWhile p (dropWhile p l) = dropWhile p l.
Proof.
  induction l as [| x l IH]; cbn [dropWhile]; [reflexivity |].
  destruct (p x) eqn:E; [exact IH |]. cbn [dropWhile]. rewrite E. reflexivity.
Qed.

Lemma forallb_rev {A} (p : A -> bool) (l : list A) :
  forallb p (rev l) = forallb p l.
Proof.
  induction l as [| x l IH]; cbn [rev forallb]; [reflexivity |].
  rewrite forallb_app, IH. cbn [forallb]. rewrite andb_true_r. apply andb_comm.
Qed.

Lemma length_zero_nil {A} (l : list A) : Nat.eqb (length l) 0 = true <-> l = [].
Proof. destruct l; cbn; split; congruence. Qed.

(** Something is left of a string after trimming exactly when it has a
    character that is not white space. *)
Lemma trim_nil s : trim s = [] <-> blank s = true.
Proof.
  unfold trim, trimEnd, trimStart, blank. split.
  - intros H. apply (f_equal (@rev char)) in H. rewrite rev_involutive in H.
    cbn [rev] in H. apply dropWhile_nil in H.
    rewrite forallb_rev, forallb_dropWhile in H. exact H.
  - intros H. apply dropWhile_nil in H. rewrite H. reflexivity.
Qed.

Lemma nonEmpty_trim s : nonEmpty (trim s) = negb (blank s).
Proof.
  unfold nonEmpty. destruct (blank s) eqn:E.
  - apply trim_nil in E. rewrite E. reflexivity.
  - destruct (Nat.eqb (length (trim s)) 0) eqn:E'; [| reflexivity].
    apply length_zero_nil, trim_nil in E'. congruence.
Qed.

Lemma nonBlank_blank s : nonBlank s = negb (blank s).
Proof.
  rewrite <- nonEmpty_trim. unfold nonBlank, nonEmpty.
  destruct (length (trim s)); reflexivity.
Qed.

Lemma blank_app a b : blank (a ++ b) = blank a && blank b.
Proof. apply forallb_app. Qed.

Lemma emitChunk_inked cur : blank cur = false -> emitChunk cur = [trim cur].
Proof. intros H. unfold emitChunk. rewrite nonEmpty_trim, H. reflexivity. Qed.

Lemma emitChunk_nonempty cur : Forall (fun chunk => chunk <> []) (emitChunk cur).
Proof.
  unfold emitChunk. destruct (nonEmpty (trim cur)) eqn:E; constructor; [| constructor].
  intros H. rewrite H in E. discriminate.
Qed.

Lemma trimStart_app s r : blank s = false -> trimStart (s ++ r) = trimStart s ++ r.
Proof. apply dropWhile_app_stop. Qed.

(** A trailing separator loses its space, and nothing else, to [trimEnd]. *)
Lemma trimEnd_dot_space body :
  trimEnd (body ++ [46%N] ++ [32%N]) = body ++ [46%N].
Proof.
  unfold trimEnd. rewrite !rev_app_distr. cbn [rev app dropWhile].
  change (isWhiteSpace 32%N) with true. change (isWhiteSpace 46%N) with false.
  cbv iota. cbn [rev]. rewrite rev_involutive. reflexivity.
Qed.

Lemma trim_trimStart s : trim (trimStart s) = trim s.
Proof. unfold trim, trimStart. rewrite dropWhile_idem. reflexivity. Qed.

End Trimming.

Section Sentences.

Lemma splitSentences_head s :
  startsWithTerminator s = true -> exists pieces, splitSentences s = [] :: pieces.
Proof.
  induction s as [| c s IH]; cbn [startsWithTerminator]; [discriminate |].
  intros Hc. cbn [splitSentences]. rewrite Hc.
  destruct (startsWithTerminator s); [apply IH; reflexivity | eauto].
Qed.

(** The regular expression's runs of terminators and the one-by-one
    splitting differ in empty pieces only. *)
Lemma splitSentences_specPieces s :
  exists piece pieces pieces',
    splitSentences s = piece :: pieces
    /\ specPieces s = piece :: pieces'
    /\ filter nonBlank pieces = filter nonBlank pieces'.
Proof.
  induction s as [| c s (piece & pieces & pieces' & Hs & Hp & Hf)].
  - exists [], [], []. repeat split.
  - cbn [splitSentences specPieces].
    destruct (isTerminator c).
    + destruct (startsWithTerminator s) eqn:Hst.
      * destruct (splitSentences_head s Hst) as (ps & Hps).
        rewrite Hps in Hs. injection Hs as Hpiece Hpieces. subst piece pieces.
        rewrite Hps, Hp.
        exists [], ps, ([] :: pieces'). repeat split. exact Hf.
      * rewrite Hs, Hp.
        exists [], (piece :: pieces), (piece :: pieces'). repeat split.
        cbn [filter]. rewrite Hf. reflexivity.
    + rewrite Hs, Hp. exists (c :: piece), pieces, pieces'. repeat split. exact Hf.
Qed.

Lemma sentencesOf_spec text : sentencesOf text = specSentences text.
Proof.
  unfold sentencesOf, specSentences.
  destruct (splitSentences_specPieces text) as (p & ps & ps' & -> & -> & Hf).
  cbn [filter]. rewrite Hf. reflexivity.
Qed.

Lemma specPieces_cons s : exists piece pieces, specPieces s = piece :: pieces.
Proof.
  induction s as [| c s (p & ps & H)]; cbn [specPieces]; [eauto |].
  rewrite H. destruct (isTerminator c); eauto.
Qed.

Lemma specPieces_terminatorFree s :
  Forall (fun piece => terminatorFree piece = true) (specPieces s).
Proof.
  induction s as [| c s IH]; cbn [specPieces].
  - repeat constructor.
  - destruct (isTerminator c) eqn:Hc; [constructor; [reflexivity | exact IH] |].
    destruct (specPieces s) as [| p ps]; [repeat constructor; cbn; rewrite Hc; reflexivity |].
    inversion IH; subst. constructor; [| assumption].
    cbn [terminatorFree forallb]. rewrite Hc. assumption.
Qed.

Lemma specPieces_plain s : terminatorFree s = true -> specPieces s = [s].
Proof.
  induction s as [| c s IH]; cbn [terminatorFree forallb specPieces]; [reflexivity |].
  intros H. apply andb_prop in H as [Hc Hs]. apply negb_true_iff in Hc.
  rewrite Hc, (IH Hs). reflexivity.
Qed.

(** A terminator between two texts separates their pieces. *)
Lemma specPieces_app a t b :
  isTerminator t = true -> specPieces (a ++ t :: b) = specPieces a ++ specPieces b.
Proof.
  intros Ht. induction a as [| c a IH]; cbn [app specPieces].
  - rewrite Ht. reflexivity.
  - rewrite IH. destruct (isTerminator c); [reflexivity |].
    destruct (specPieces_cons a) as (p & ps & ->). reflexivity.
Qed.

Lemma sentencesOf_Forall text :
  Forall (fun s => blank s = false /\ terminatorFree s = true) (sentencesOf text).
Proof.
  rewrite sentencesOf_spec. unfold specSentences.
  rewrite Forall_forall. intros s Hs. apply filter_In in Hs as [Hin Hnb].
  rewrite nonBlank_blank in Hnb. apply negb_true_iff in Hnb. split; [exact Hnb |].
  pose proof (specPieces_terminatorFree text) as H. rewrite Forall_forall in H.
  apply H, Hin.
Qed.

End Sentences.

Section Greedy.
Variable maxChunkSize : Z.

Lemma splitIntoChunks_loop sentences : forall chunks currentChunk,
  (let '(chunks', currentChunk') :=
     fold_left (chunkStep maxChunkSize) sentences (chunks, currentChunk) in
   chunks' ++ emitChunk currentChunk')
  = chunks ++ specChunks maxChunkSize currentChunk sentences.
Proof.
  induction sentences as [| s rest IH]; intros chunks cur; cbn [fold_left specChunks].
  - reflexivity.
  - unfold chunkStep at 2.
    destruct (Z.ltb_spec (Z.of_nat (length cur) + Z.of_nat (length s)) maxChunkSize)
      as [Hlt | Hge].
    + destruct (Z.leb_spec maxChunkSize (Z.of_nat (length cur) + Z.of_nat (length s)));
        [lia |]. apply IH.
    + destruct (Z.leb_spec maxChunkSize (Z.of_nat (length cur) + Z.of_nat (length s)));
        [| lia]. rewrite IH. unfold emitChunk.
      destruct (nonEmpty (trim cur)); [rewrite <- app_assoc |]; reflexivity.
Qed.

Lemma splitIntoChunks_spec text :
  splitIntoChunks text maxChunkSize = specChunks maxChunkSize [] (sentencesOf text).
Proof.
  unfold splitIntoChunks. cbv zeta.
  etransitivity; [| exact (splitIntoChunks_loop (sentencesOf text) [] [])].
  match goal with
  | |- match ?F with pair _ _ => _ end = match ?G with pair _ _ => _ end =>
      change G with F; destruct F as [chunks cur]
  end.
  unfold emitChunk.
  destruct (nonEmpty (trim cur)); [reflexivity | rewrite app_nil_r; reflexivity].
Qed.

Lemma blank_separator : blank separator = false.
Proof. reflexivity. Qed.

Lemma blank_sentence_sep cur s : blank (cur ++ s ++ separator) = false.
Proof. rewrite !blank_app, blank_separator, !andb_false_r. reflexivity. Qed.

(** The last sentence ends the last chunk. *)
Lemma specChunks_last front : forall cur last,
  exists chunks g,
    specChunks maxChunkSize cur (front ++ [last])
    = chunks ++ [trim (g ++ last ++ separator)].
Proof.
  induction front as [| s front IH]; intros cur last; cbn [app specChunks].
  - destruct (maxChunkSize <=? _)%Z.
    + exists (emitChunk cur), [].
      rewrite (emitChunk_inked (last ++ separator)); [reflexivity |].
      apply (blank_sentence_sep []).
    + exists [], cur.
      rewrite (emitChunk_inked (cur ++ last ++ separator)); [reflexivity |].
      apply blank_sentence_sep.
  - destruct (maxChunkSize <=? _)%Z.
    + destruct (IH (s ++ separator) last) as (chunks & g & ->).
      exists (emitChunk cur ++ chunks), g. rewrite app_assoc. reflexivity.
    + apply IH.
Qed.

(** A chunk that has reached the bound is emitted before anything joins it. *)
Lemma specChunks_full cur rest :
  (maxChunkSize <= Z.of_nat (length cur))%Z -> blank cur = false ->
  In (trim cur) (specChunks maxChunkSize cur rest).
Proof.
  intros Hfull Hink. destruct rest as [| s rest]; cbn [specChunks].
  - rewrite emitChunk_inked by assumption. left. reflexivity.
  - destruct (Z.leb_spec maxChunkSize (Z.of_nat (length cur) + Z.of_nat (length s)));
      [| lia].
    rewrite emitChunk_inked by assumption. left. reflexivity.
Qed.

Lemma specChunks_oversized sentences : forall cur s,
  In s sentences -> (maxChunkSize <= Z.of_nat (length s))%Z ->
  In (trim (s ++ separator)) (specChunks maxChunkSize cur sentences).
Proof.
  induction sentences as [| s0 rest IH]; intros cur s Hin Hbig; [destruct Hin |].
  cbn [specChunks]. destruct Hin as [-> | Hin].
  - destruct (Z.leb_spec maxChunkSize (Z.of_nat (length cur) + Z.of_nat (length s)));
      [| lia].
    apply in_or_app. right. apply specChunks_full.
    + rewrite length_app. lia.
    + apply (blank_sentence_sep []).
  - destruct (maxChunkSize <=? _)%Z; [apply in_or_app; right |]; apply IH; assumption.
Qed.

Lemma specChunks_nonempty sentences : forall cur,
  Forall (fun chunk => chunk <> []) (specChunks maxChunkSize cur sentences).
Proof.
  induction sentences as [| s rest IH]; intros cur; cbn [specChunks].
  - apply emitChunk_nonempty.
  - destruct (maxChunkSize <=? _)%Z; [apply Forall_app; split |]; auto using emitChunk_nonempty.
Qed.

Lemma joinGroup_snoc group s :
  joinGroup (group ++ [s]) = joinGroup group ++ s ++ separator.
Proof.
  unfold joinGroup. rewrite map_app, concat_app. cbn [map concat].
  rewrite app_nil_r. reflexivity.
Qed.

Lemma joinGroup_blank group : group <> [] -> blank (joinGroup group) = false.
Proof.
  destruct group as [| s group]; [congruence |]. intros _.
  unfold joinGroup. cbn [map concat]. rewrite <- app_assoc.
  rewrite !blank_app, blank_separator. cbn [andb]. apply andb_false_r.
Qed.

(** The chunks are the sentences, regrouped. *)
Lemma specChunks_groups sentences : forall group,
  exists groups,
    concat groups = group ++ sentences
    /\ Forall (fun g => g <> []) groups
    /\ specChunks maxChunkSize (joinGroup group) sentences = map renderGroup groups.
Proof.
  assert (Hemit : forall group,
    exists groups, concat groups = group /\ Forall (fun g => g <> []) groups
                   /\ emitChunk (joinGroup group) = map renderGroup groups).
  { intros [| s group].
    - exists []. repeat split. constructor.
    - exists [s :: group]. cbn [concat]. rewrite app_nil_r. split; [reflexivity |].
      split; [repeat constructor; discriminate |].
      rewrite emitChunk_inked by (apply joinGroup_blank; discriminate). reflexivity. }
  induction sentences as [| s rest IH]; intros group; cbn [specChunks].
  - rewrite app_nil_r. apply Hemit.
  - destruct (maxChunkSize <=? _)%Z.
    + destruct (Hemit group) as (gs1 & Hc1 & Hn1 & ->).
      destruct (IH [s]) as (gs2 & Hc2 & Hn2 & He2).
      unfold joinGroup in He2. cbn [map concat] in He2. rewrite app_nil_r in He2.
      rewrite He2. exists (gs1 ++ gs2).
      rewrite concat_app, Hc1, Hc2, map_app. repeat split.
      apply Forall_app. split; assumption.
    + rewrite <- joinGroup_snoc.
      destruct (IH (group ++ [s])) as (gs & Hc & Hn & He).
      exists gs. rewrite Hc, <- app_assoc. repeat split; assumption.
Qed.

End Greedy.

Section Reconstruction.

Lemma specSentences_app a t b :
  isTerminator t = true ->
  specSentences (a ++ t :: b) = specSentences a ++ specSentences b.
Proof.
  intros Ht. unfold specSentences. rewrite (specPieces_app a t b Ht).
  apply filter_app.
Qed.

Lemma specSentences_plain s :
  terminatorFree s = true -> blank s = false -> specSentences s = [s].
Proof.
  intros Hs Hb. unfold specSentences. rewrite (specPieces_plain s Hs).
  cbn [filter]. rewrite nonBlank_blank, Hb. reflexivity.
Qed.

Lemma terminatorFree_trimStart s :
  terminatorFree s = true -> terminatorFree (trimStart s) = true.
Proof.
  unfold terminatorFree, trimStart.
  induction s as [| c s IH]; cbn [dropWhile forallb]; [reflexivity |].
  intros H. destruct (isWhiteSpace c); [| exact H].
  apply andb_prop in H as [_ H]. apply IH, H.
Qed.

Lemma blank_trimStart s : blank (trimStart s) = blank s.
Proof. apply forallb_dropWhile. Qed.

Lemma joinGroup_spaced group :
  32%N :: joinGroup group = concat (map spaced group) ++ [32%N].
Proof.
  induction group as [| s group IH]; [reflexivity |].
  unfold joinGroup in *. cbn [map concat]. unfold spaced at 1.
  change separator with ([46%N] ++ [32%N]).
  cbn [app]. rewrite <- !app_assoc. cbn [app]. f_equal. f_equal. f_equal.
  exact IH.
Qed.

Lemma spaced_ends_with_dot group :
  exists body, 46%N :: concat (map spaced group) = body ++ [46%N].
Proof.
  induction group as [| s group (body & IH)].
  - exists []. reflexivity.
  - exists (46%N :: 32%N :: s ++ body). cbn [map concat]. unfold spaced at 1.
    cbn [app]. rewrite <- !app_assoc. cbn [app]. rewrite IH. reflexivity.
Qed.

(** The chunk a group is emitted as, written out. *)
Lemma renderGroup_explicit s group :
  blank s = false ->
  renderGroup (s :: group) = trimStart s ++ 46%N :: concat (map spaced group).
Proof.
  intros Hs. unfold renderGroup, trim.
  assert (Hj : joinGroup (s :: group) = s ++ 46%N :: 32%N :: joinGroup group).
  { unfold joinGroup. cbn [map concat]. rewrite <- app_assoc. reflexivity. }
  rewrite Hj, joinGroup_spaced, (trimStart_app s _ Hs).
  destruct (spaced_ends_with_dot group) as (body & Hbody).
  assert (E : trimStart s ++ 46%N :: concat (map spaced group) ++ [32%N]
              = (trimStart s ++ body) ++ [46%N] ++ [32%N]).
  { change (46%N :: concat (map spaced group) ++ [32%N])
      with ((46%N :: concat (map spaced group)) ++ [32%N]).
    rewrite Hbody, <- !app_assoc. reflexivity. }
  rewrite E, trimEnd_dot_space, <- app_assoc, <- Hbody. reflexivity.
Qed.

Lemma specSentences_spaced group rest :
  Forall (fun s => blank s = false /\ terminatorFree s = true) group ->
  map trim (specSentences (concat (map spaced group) ++ rest))
  = map trim group ++ map trim (specSentences rest).
Proof.
  induction 1 as [| s group [Hb Ht] Hg IH]; [reflexivity |].
  cbn [map concat].
  replace ((spaced s ++ concat (map spaced group)) ++ rest)
    with ((32%N :: s) ++ 46%N :: (concat (map spaced group) ++ rest))
    by (unfold spaced; cbn [app]; rewrite <- !app_assoc; reflexivity).
  rewrite specSentences_app by reflexivity.
  rewrite (specSentences_plain (32%N :: s)).
  - rewrite map_app, IH. reflexivity.
  - cbn [terminatorFree forallb]. exact Ht.
  - cbn [blank forallb]. exact Hb.
Qed.

Lemma specSentences_renderGroup group rest :
  group <> [] ->
  Forall (fun s => blank s = false /\ terminatorFree s = true) group ->
  map trim (specSentences (renderGroup group ++ rest))
  = map trim group ++ map trim (specSentences rest).
Proof.
  intros Hne Hg. destruct group as [| s group]; [congruence |].
  inversion Hg as [| ? ? [Hb Ht] Hg']; subst.
  rewrite (renderGroup_explicit s group Hb), <- app_assoc.
  change ((46%N :: concat (map spaced group)) ++ rest)
    with (46%N :: (concat (map spaced group) ++ rest)).
  rewrite specSentences_app by reflexivity.
  rewrite (specSentences_plain (trimStart s)).
  - rewrite map_app, specSentences_spaced by assumption.
    cbn [map app]. rewrite trim_trimStart. reflexivity.
  - apply terminatorFree_trimStart, Ht.
  - rewrite blank_trimStart. exact Hb.
Qed.

Lemma Forall_concat_inv {A} (P : A -> Prop) (groups : list (list A)) :
  Forall P (concat groups) -> Forall (Forall P) groups.
Proof.
  induction groups as [| g groups IH]; cbn [concat]; intros H; constructor.
  - apply Forall_app in H. apply H.
  - apply IH. apply Forall_app in H. apply H.
Qed.

(** Re-reading the concatenated chunks gives back the grouped sentences. *)
Lemma specSentences_chunks groups :
  Forall (fun g => g <> []) groups ->
  Forall (fun s => blank s = false /\ terminatorFree s = true) (concat groups) ->
  map trim (specSentences (concat (map renderGroup groups)))
  = map trim (concat groups).
Proof.
  intros Hne Hok. apply Forall_concat_inv in Hok.
  induction groups as [| g groups IH]; [reflexivity |].
  inversion Hne; inversion Hok; subst. cbn [map concat].
  rewrite specSentences_renderGroup by assumption.
  rewrite IH by assumption. rewrite map_app. reflexivity.
Qed.

End Reconstruction.

(* ================================================================== *)
(** * Further properties: scoring and retrieval *)
(* ================================================================== *)

Section Scoring.
Local Open Scope float_scope.

Lemma SFmul_comm x y : SF64mul x y = SF64mul y x.
Proof.
  destruct x as [sx | sx | | sx mx ex]; destruct y as [sy | sy | | sy my ey];
    cbn [SF64mul SFmul]; try reflexivity;
    try (f_equal; apply xorb_comm).
  unfold SF64mul, SFmul.
  rewrite (xorb_comm sx sy), (Pos.mul_comm mx my), (Z.add_comm ex ey). reflexivity.
Qed.

Lemma mul_comm x y : x * y = y * x.
Proof. apply Prim2SF_inj. rewrite !mul_spec. apply SFmul_comm. Qed.

Lemma similarity_fold_swap v1 : forall v2 d n1 n2,
  fold_left similarityStep (combine v2 v1) (d, n2, n1)
  = (let '(d', n1', n2') := fold_left similarityStep (combine v1 v2) (d, n1, n2) in
     (d', n2', n1')).
Proof.
  induction v1 as [| a v1 IH]; intros [| b v2] d n1 n2; try reflexivity.
  cbn [combine fold_left similarityStep]. rewrite (mul_comm b a). apply IH.
Qed.

Lemma ltb_nan_l a b : is_nan a = true -> (a <? b) = false.
Proof.
  rewrite is_nan_spec, ltb_spec. unfold SFltb.
  destruct (Prim2SF a); try discriminate. reflexivity.
Qed.

Lemma leb_true_not_nan a b : (a <=? b) = true -> is_nan a = false /\ is_nan b = false.
Proof.
  rewrite !is_nan_spec, leb_spec. unfold SFleb.
  destruct (Prim2SF a), (Prim2SF b); try discriminate; intros _; split; reflexivity.
Qed.

Lemma leb_ltb_false a b : (a <=? b) = true -> (b <? a) = false.
Proof.
  intros H. destruct (leb_true_not_nan a b H) as [Ha Hb].
  rewrite leb_key in H by assumption. rewrite ltb_key by assumption.
  apply Z.leb_le in H. apply Z.ltb_ge. exact H.
Qed.

End Scoring.

Lemma sort_nil {A} (comparefn : A -> A -> float) : sort comparefn [] = [].
Proof. reflexivity. Qed.

(** The ranking before truncation, and what the function returns from it. *)
Lemma retrieve_slice store threshold q limit :
  retrieveRelevantContext store threshold q limit
  = slice0 limit
      (sort (fun a b => (similarity b - similarity a)%float)
         (filter (aboveThreshold threshold) (scoreAll q store))).
Proof.
  unfold retrieveRelevantContext. destruct store as [| d store]; [| reflexivity].
  cbn [length Nat.eqb scoreAll map filter]. unfold slice0. cbn [length].
  rewrite sort_nil. symmetry. apply firstn_nil.
Qed.

Lemma ranked_length threshold q store :
  length (sort (fun a b => (similarity b - similarity a)%float)
            (filter (aboveThreshold threshold) (scoreAll q store)))
  <= length store.
Proof.
  rewrite (Permutation_length (sort_perm _ _)).
  etransitivity; [apply filter_length_le |].
  unfold scoreAll. rewrite length_map. apply Nat.le_refl.
Qed.

Lemma retrieved_from_store store threshold q limit c :
  In c (retrieveRelevantContext store threshold q limit) -> In (doc c) store.
Proof.
  rewrite retrieve_slice. intros H. apply In_slice0 in H.
  apply (Permutation_in _ (sort_perm _ _)) in H.
  apply filter_In in H as [H _].
  unfold scoreAll in H. apply in_map_iff in H as (d & <- & Hd). exact Hd.
Qed.

(* ================================================================== *)
(** * Further properties: the chunker *)
(* ================================================================== *)

Section ChunkShape.

(** Trimming a text that ends with the separator removes the final space
    and, at most, leading characters. *)
Lemma trimStart_separator body :
  exists kept,
    trimStart (body ++ [46%N] ++ [32%N]) = kept ++ [46%N] ++ [32%N]
    /\ length kept <= length body
    /\ forall c, In c kept -> In c body.
Proof.
  induction body as [| c body (kept & IH & Hlen & Hin)].
  - exists []. repeat split; [apply Nat.le_refl | intros c []].
  - cbn [app]. unfold trimStart in *. cbn [dropWhile].
    destruct (isWhiteSpace c).
    + exists kept. repeat split; [exact IH | cbn [length]; lia |].
      intros c' Hc'. right. apply Hin, Hc'.
    + exists (c :: body). repeat split; [apply Nat.le_refl | auto].
Qed.

Lemma trim_separator body :
  exists kept,
    trim (body ++ separator) = kept ++ [46%N]
    /\ length kept <= length body
    /\ forall c, In c kept -> In c body.
Proof.
  destruct (trimStart_separator body) as (kept & Hk & Hlen & Hin).
  exists kept. split; [| split; assumption].
  unfold trim. change separator with ([46%N] ++ [32%N]).
  rewrite Hk. apply trimEnd_dot_space.
Qed.

Variable maxChunkSize : Z.

(** Emitted chunks stay within the bound while every sentence is shorter
    than the bound. *)
Lemma specChunks_bounded sentences : forall cur,
  Forall (fun s => (Z.of_nat (length s) < maxChunkSize)%Z) sentences ->
  cur = [] \/ (exists body, cur = body ++ separator
                            /\ (Z.of_nat (length body) < maxChunkSize)%Z) ->
  Forall (fun chunk => (Z.of_nat (length chunk) <= maxChunkSize)%Z)
    (specChunks maxChunkSize cur sentences).
Proof.
  assert (Hemit : forall cur,
    cur = [] \/ (exists body, cur = body ++ separator
                              /\ (Z.of_nat (length body) < maxChunkSize)%Z) ->
    Forall (fun chunk => (Z.of_nat (length chunk) <= maxChunkSize)%Z) (emitChunk cur)).
  { intros cur [-> | (body & -> & Hb)]; [constructor |].
    unfold emitChunk. destruct (nonEmpty _); constructor; [| constructor].
    destruct (trim_separator body) as (kept & -> & Hlen & _).
    rewrite length_app. cbn [length]. lia. }
  induction sentences as [| s rest IH]; intros cur Hs Hcur; cbn [specChunks].
  - apply Hemit, Hcur.
  - inversion Hs as [| ? ? Hshort Hrest]; subst.
    destruct (Z.leb_spec maxChunkSize (Z.of_nat (length cur) + Z.of_nat (length s)))
      as [Hfull | Hfits].
    + apply Forall_app. split; [apply Hemit, Hcur |].
      apply IH; [assumption |]. right. exists s. split; [reflexivity | assumption].
    + apply IH; [assumption |]. right. exists (cur ++ s).
      split; [rewrite <- app_assoc; reflexivity |]. rewrite length_app. lia.
Qed.

End ChunkShape.

Lemma whiteSpace_not_terminator c : isWhiteSpace c = true -> isTerminator c = false.
Proof.
  intros H. unfold isTerminator.
  destruct (N.eqb_spec c 46) as [-> | _]; [discriminate H |].
  destruct (N.eqb_spec c 33) as [-> | _]; [discriminate H |].
  destruct (N.eqb_spec c 63) as [-> | _]; [discriminate H |].
  reflexivity.
Qed.

Lemma blank_terminatorFree s : blank s = true -> terminatorFree s = true.
Proof.
  unfold blank, terminatorFree.
  induction s as [| c s IH]; cbn [forallb]; [reflexivity |].
  intros H. apply andb_prop in H as [Hc Hs].
  rewrite (whiteSpace_not_terminator c Hc), (IH Hs). reflexivity.
Qed.

Lemma sentencesOf_blank text : blank text = true -> sentencesOf text = [].
Proof.
  intros H. rewrite sentencesOf_spec. unfold specSentences.
  rewrite (specPieces_plain text (blank_terminatorFree text H)).
  cbn [filter]. rewrite nonBlank_blank, H. reflexivity.
Qed.

Lemma concat_nonempty_length {A} (groups : list (list A)) :
  Forall (fun g => g <> []) groups -> length groups <= length (concat groups).
Proof.
  induction 1 as [| g groups Hg Hgs IH]; cbn [concat length]; [apply Nat.le_refl |].
  rewrite length_app. destruct g; [congruence | cbn [length]; lia].
Qed.

Lemma In_trimStart c s : In c (trimStart s) -> In c s.
Proof.
  unfold trimStart. induction s as [| x s IH]; cbn [dropWhile]; [auto |].
  destruct (isWhiteSpace x); [intros H; right; apply IH, H | auto].
Qed.

Lemma In_spaced c group :
  In c (concat (map spaced group)) ->
  c = 46%N \/ c = 32%N \/ In c (concat group).
Proof.
  induction group as [| s group IH]; cbn [map concat]; [intros [] |].
  unfold spaced at 1. intros H. apply in_app_or in H as [H | H].
  - destruct H as [<- | H]; [auto |].
    apply in_app_or in H as [H | [<- | []]]; [| auto].
    right. right. apply in_or_app. left. exact H.
  - destruct (IH H) as [-> | [-> | Hc]]; auto.
    right. right. apply in_or_app. right. exact Hc.
Qed.

(** A chunk ends with a full stop, and its characters are those of its
    sentences, full stops and spaces. *)
Lemma renderGroup_shape s group :
  blank s = false ->
  (exists body, renderGroup (s :: group) = body ++ [46%N])
  /\ forall c, In c (renderGroup (s :: group)) ->
               c = 46%N \/ c = 32%N \/ In c (concat (s :: group)).
Proof.
  intros Hs. rewrite (renderGroup_explicit s group Hs). split.
  - destruct (spaced_ends_with_dot group) as (body & ->).
    exists (trimStart s ++ body). rewrite app_assoc. reflexivity.
  - intros c H. apply in_app_or in H as [H | [<- | H]]; [| auto |].
    + right. right. cbn [concat]. apply in_or_app. left. apply In_trimStart, H.
    + destruct (In_spaced c group H) as [-> | [-> | Hc]]; auto.
      right. right. cbn [concat]. apply in_or_app. right. exact Hc.
Qed.

Lemma terminatorFree_In s c :
  terminatorFree s = true -> In c s -> isTerminator c = false.
Proof.
  unfold terminatorFree. rewrite forallb_forall. intros H Hc.
  apply negb_true_iff. apply H, Hc.
Qed.

(** The chunks are the sentences, regrouped (the grouping of C8). *)
Lemma chunks_are_grouped_sentences text maxChunkSize :
  exists groups,
    concat groups = sentencesOf text
    /\ Forall (fun group => group <> []) groups
    /\ splitIntoChunks text maxChunkSize = map renderGroup groups.
Proof.
  rewrite splitIntoChunks_spec.
  destruct (specChunks_groups maxChunkSize (sentencesOf text) [])
    as (groups & Hc & Hne & He).
  exists groups. auto.
Qed.

(* ================================================================== *)
(** * Further properties: keyword counting and document processing *)
(* ================================================================== *)

Lemma startsWith_length pat : forall s, startsWith pat s = true -> length pat <= length s.
Proof.
  induction pat as [| p pat IH]; intros [| c s]; cbn [startsWith length];
    try discriminate; try lia.
  intros H. apply andb_prop in H as [_ H]. specialize (IH s H). lia.
Qed.

(** Matches do not overlap: each one uses up its own stretch of the text. *)
Lemma matchCountFrom_bound keyword (s : jsstring) : forall skip,
  matchCountFrom keyword skip s * length keyword <= length s - skip.
Proof.
  induction s as [| c s IH]; intros skip; cbn [matchCountFrom length]; [lia |].
  destruct skip as [| k].
  - destruct (startsWith keyword (c :: s)) eqn:Hs.
    + apply startsWith_length in Hs. cbn [length] in Hs.
      specialize (IH (length keyword - 1)).
      destruct keyword as [| p keyword]; [cbn; lia |].
      cbn [length] in *. nia.
    + specialize (IH 0). lia.
  - specialize (IH k). lia.
Qed.

Section DocumentChunks.
Variable embed : jsstring -> list float.
Variable extractKeywords : jsstring -> list jsstring.
Variable now : jsstring.

Lemma processChunks_nth fileName category total chunks : forall i j,
  nth_error (processChunks embed extractKeywords now fileName category total i chunks) j
  = option_map (docChunk embed extractKeywords now fileName category total (i + j))
      (nth_error chunks j).
Proof.
  induction chunks as [| chunk chunks IH]; intros i [| j]; cbn [processChunks nth_error];
    try reflexivity.
  - rewrite Nat.add_0_r. reflexivity.
  - rewrite IH. replace (S i + j) with (i + S j) by lia. reflexivity.
Qed.

Lemma processChunks_content fileName category total chunks : forall i,
  map Chunk.content (processChunks embed extractKeywords now fileName category total i chunks)
  = chunks.
Proof.
  induction chunks as [| chunk chunks IH]; intros i; cbn [processChunks map];
    [reflexivity | f_equal; apply IH].
Qed.

End DocumentChunks.

Lemma str_inj a b : str a = str b -> a = b.
Proof.
  unfold str. intros H.
  rewrite <- (string_of_list_ascii_of_string a), <- (string_of_list_ascii_of_string b).
  f_equal. revert H. generalize (list_ascii_of_string a) (list_ascii_of_string b).
  induction l as [| x l IH]; intros [| y l']; cbn [map]; try discriminate; [reflexivity |].
  intros H. injection H as Hxy Hl. f_equal; [| apply IH, Hl].
  rewrite <- (ascii_N_embedding x), <- (ascii_N_embedding y), Hxy. reflexivity.
Qed.

Lemma decimal_inj i j : decimal i = decimal j -> i = j.
Proof.
  unfold decimal. intros H. apply str_inj in H.
  assert (Hd : Nat.to_uint i = Nat.to_uint j).
  { pose proof (NilEmpty.usu (Nat.to_uint i)) as Hi.
    pose proof (NilEmpty.usu (Nat.to_uint j)) as Hj.
    rewrite H in Hi. congruence. }
  rewrite <- (DecimalNat.Unsigned.of_to i), <- (DecimalNat.Unsigned.of_to j), Hd.
  reflexivity.
Qed.

Lemma processChunks_ids embed extractKeywords now fileName category total chunks :
  forall i d,
  In d (processChunks embed extractKeywords now fileName category total i chunks) ->
  exists j, i <= j /\ Chunk.id d = fileName ++ str "-chunk-" ++ decimal j.
Proof.
  induction chunks as [| chunk chunks IH]; intros i d; cbn [processChunks]; [intros [] |].
  intros [<- | H].
  - exists i. split; [apply Nat.le_refl | reflexivity].
  - destruct (IH (S i) d H) as (j & Hj & Hid). exists j. split; [lia | exact Hid].
Qed.

Lemma processChunks_NoDup embed extractKeywords now fileName category total chunks :
  forall i,
  NoDup (map Chunk.id
           (processChunks embed extractKeywords now fileName category total i chunks)).
Proof.
  induction chunks as [| chunk chunks IH]; intros i; cbn [processChunks map];
    constructor; [| apply IH].
  intros Hin. apply in_map_iff in Hin as (d & Hd & Hin).
  apply processChunks_ids in Hin as (j & Hj & Hid).
  rewrite Hid in Hd. cbn [Chunk.id docChunk] in Hd.
  apply app_inv_head in Hd. apply app_inv_head in Hd.
  apply decimal_inj in Hd. lia.
Qed.

Lemma splitIntoChunks_nonempty text maxChunkSize :
  Forall (fun chunk => chunk <> []) (splitIntoChunks text maxChunkSize).
Proof. rewrite splitIntoChunks_spec. apply specChunks_nonempty. Qed.

(* ================================================================== *)
(** * Further properties: the registry handlers *)
(* ================================================================== *)

(** [splice(start, 1)] removes nothing, or exactly one element. *)
Lemma splice1_cases {A} (start : ParsedInt) (array removed remaining : list A) :
  splice1 start array = (removed, remaining) ->
  (removed = [] /\ remaining = array)
  \/ (exists x before after,
        removed = [x] /\ array = before ++ x :: after /\ remaining = before ++ after).
Proof.
  unfold splice1.
  set (len := Z.of_nat (length array)).
  set (actualStart := if (toInteger start <? 0)%Z then Z.max (len + toInteger start) 0
                      else Z.min (toInteger start) len).
  assert (Hstart : (0 <= actualStart <= len)%Z).
  { subst actualStart len. destruct (Z.ltb_spec (toInteger start) 0); lia. }
  set (from := Z.to_nat actualStart).
  assert (Hfrom : from <= length array) by (subst from len; lia).
  intros H. injection H as <- <-.
  destruct (Z.eq_dec actualStart len) as [E | E].
  - left. replace (Z.to_nat (Z.min (Z.max 1 0) (len - actualStart))) with 0 by lia.
    cbn [firstn]. rewrite Nat.add_0_r, firstn_skipn. auto.
  - right. replace (Z.to_nat (Z.min (Z.max 1 0) (len - actualStart))) with 1 by lia.
    assert (Hlt : from < length array) by (subst from len; lia).
    destruct (skipn from array) as [| x after] eqn:Hskip.
    + apply (f_equal (@length A)) in Hskip. rewrite length_skipn in Hskip.
      cbn [length] in Hskip. lia.
    + exists x, (firstn from array), after. cbn [firstn]. repeat split.
      * rewrite <- Hskip. symmetry. apply firstn_skipn.
      * f_equal. rewrite Nat.add_1_r.
        change (S from) with (1 + from). rewrite <- skipn_skipn, Hskip. reflexivity.
Qed.

Lemma filter_filter_implied {A} (p q : A -> bool) (l : list A) :
  (forall a, p a = true -> q a = true) -> filter p (filter q l) = filter p l.
Proof.
  intros H. induction l as [| a l IH]; cbn [filter]; [reflexivity |].
  destruct (q a) eqn:Hq; cbn [filter]; rewrite IH; [reflexivity |].
  destruct (p a) eqn:Hp; [| reflexivity]. rewrite (H a Hp) in Hq. discriminate.
Qed.

(** What the delete handler does, by the answer it gives. *)
Lemma delete_outcome indexParam st :
  match fst (deleteTrainingExample indexParam st) with
  | Deleted name removedChunks remainingCount =>
      (exists before removed after,
          trainingExamples st = before ++ removed :: after
          /\ TrainingExample.fileName removed = name
          /\ trainingExamples (snd (deleteTrainingExample indexParam st)) = before ++ after
          /\ remainingCount = length (before ++ after))
      /\ documentStore (snd (deleteTrainingExample indexParam st))
         = filter (fun d => negb (fromSource name d)) (documentStore st)
      /\ removedChunks = length (filter (fromSource name) (documentStore st))
  | _ => snd (deleteTrainingExample indexParam st) = st
  end.
Proof.
  unfold deleteTrainingExample.
  destruct (numLt (parseInt indexParam) 0
            || numGe (parseInt indexParam) (Z.of_nat (length (trainingExamples st))));
    [reflexivity |].
  destruct (splice1 (parseInt indexParam) (trainingExamples st)) as [removed remaining]
    eqn:Hs.
  apply splice1_cases in Hs
    as [[-> ->] | (x & before & after & -> & Harr & ->)]; cbn [fst snd].
  - destruct st; reflexivity.
  - cbn [trainingExamples documentStore]. split; [| split].
    + exists before, x, after. repeat split. exact Harr.
    + reflexivity.
    + rewrite (filter_length_split (fromSource (TrainingExample.fileName x))
                 (documentStore st)).
      unfold fromSource. lia.
Qed.

(* ================================================================== *)
(** * Further properties: indices as decimal strings *)
(* ================================================================== *)

Lemma str_String a s : str (String a s) = N_of_ascii a :: str s.
Proof. reflexivity. Qed.

Lemma parseDigits_uint d : forall a,
  parseDigits 10 (Some (Z.of_nat a)) (str (NilEmpty.string_of_uint d))
  = Some (Z.of_nat (Nat.of_uint_acc d a)).
Proof.
  induction d; intros a; cbn [NilEmpty.string_of_uint Nat.of_uint_acc];
    [reflexivity | ..];
    rewrite str_String; cbn [parseDigits];
    match goal with
    | |- context [digitValue 10 ?c] =>
        let v := eval vm_compute in (digitValue 10 c) in
        change (digitValue 10 c) with v
    end;
    cbv iota beta; rewrite <- IHd; f_equal; f_equal;
    rewrite Nat.tail_mul_spec; lia.
Qed.

Lemma to_uint_not_Nil n : Nat.to_uint n <> Decimal.Nil.
Proof.
  intros H. pose proof (DecimalNat.Unsigned.of_to n) as E. rewrite H in E.
  cbn in E. subst n. discriminate H.
Qed.

Lemma parseDigits_uint_first d :
  d <> Decimal.Nil ->
  parseDigits 10 None (str (NilEmpty.string_of_uint d))
  = Some (Z.of_nat (Nat.of_uint d)).
Proof.
  intros Hd. unfold Nat.of_uint.
  destruct d; [congruence | ..];
    cbn [NilEmpty.string_of_uint Nat.of_uint_acc];
    rewrite <- parseDigits_uint; reflexivity.
Qed.

(** On a string that starts with a decimal digit, and not with [0x],
    [parseInt] reads the digits in base ten. *)
Ltac read_in_base_ten :=
  match goal with
  | |- parseInt ?s = _ =>
      transitivity (match parseDigits 10 None s with
                    | None => PNaN
                    | Some v => PInt v
                    end);
      [reflexivity | rewrite parseDigits_uint_first by discriminate; reflexivity]
  end.

(** A decimal string is read back as the number it renders. *)
Lemma parseInt_string_of_uint d :
  d <> Decimal.Nil ->
  parseInt (str (NilEmpty.string_of_uint d)) = PInt (Z.of_nat (Nat.of_uint d)).
Proof.
  intros Hd. destruct d as [| d | d | d | d | d | d | d | d | d | d];
    [congruence | | read_in_base_ten ..].
  destruct d; [reflexivity | read_in_base_ten ..].
Qed.

Lemma parseInt_decimal n : parseInt (decimal n) = PInt (Z.of_nat n).
Proof.
  unfold decimal. rewrite parseInt_string_of_uint by apply to_uint_not_Nil.
  rewrite DecimalNat.Unsigned.of_to. reflexivity.
Qed.

(* ================================================================== *)
(** * Further properties: the ranking and the threshold *)
(* ================================================================== *)

Section SortFilter.
Context {A : Type}.
Variable comparefn : A -> A -> float.
Variable key : A -> Z.
Variable ok : A -> Prop.
Hypothesis comparefn_key :
  forall x y, ok x -> ok y -> (0 <? comparefn x y)%float = (key x <? key y)%Z.
Variable p : A -> bool.

Lemma sortInsert_head x l :
  ok x -> Forall ok l -> Forall (fun z => (key z <= key x)%Z) l ->
  sortInsert comparefn x l = x :: l.
Proof.
  intros Hx Hl Hle. destruct l as [| z l]; [reflexivity |].
  cbn [sortInsert]. inversion Hl; inversion Hle; subst.
  rewrite comparefn_key by assumption.
  destruct (Z.ltb_spec (key x) (key z)); [lia | reflexivity].
Qed.

Lemma filter_sortInsert x l :
  ok x -> Forall ok l -> StronglySorted (descendingBy key) l ->
  filter p (sortInsert comparefn x l)
  = if p x then sortInsert comparefn x (filter p l) else filter p l.
Proof.
  intros Hx Hl Hs. induction Hs as [| y l Hs IH Hy].
  - cbn [sortInsert filter]. destruct (p x); reflexivity.
  - inversion Hl as [| ? ? Hoy Hol]; subst. specialize (IH Hol).
    cbn [sortInsert]. rewrite (comparefn_key x y Hx Hoy).
    destruct (Z.ltb_spec (key x) (key y)) as [Hlt | Hge].
    + cbn [filter]. rewrite IH. destruct (p y) eqn:Hpy; [| reflexivity].
      destruct (p x); [| reflexivity].
      cbn [sortInsert]. rewrite (comparefn_key x y Hx Hoy).
      destruct (Z.ltb_spec (key x) (key y)); [reflexivity | lia].
    + change (filter p (x :: y :: l))
        with (if p x then x :: filter p (y :: l) else filter p (y :: l)).
      destruct (p x) eqn:Hpx; [| reflexivity].
      symmetry. apply sortInsert_head; [exact Hx | |].
      * rewrite Forall_forall in *. intros z Hz.
        apply filter_In in Hz as [Hz _]. apply Hl, Hz.
      * assert (H : Forall (fun z => (key z <= key x)%Z) (y :: l)).
        { constructor; [exact Hge |]. rewrite Forall_forall in *.
          intros z Hz. specialize (Hy z Hz). unfold descendingBy in Hy. lia. }
        rewrite Forall_forall in *. intros z Hz.
        apply filter_In in Hz as [Hz _]. apply H, Hz.
Qed.

(** Sorting what a filter keeps is filtering what the sort gives. *)
Lemma sort_filter l :
  Forall ok l -> sort comparefn (filter p l) = filter p (sort comparefn l).
Proof.
  induction l as [| x l IH]; intros H; [reflexivity |].
  inversion H as [| ? ? Hx Hl]; subst. specialize (IH Hl).
  change (sort comparefn (x :: l)) with (sortInsert comparefn x (sort comparefn l)).
  rewrite filter_sortInsert;
    [| exact Hx | apply (sort_ok comparefn ok), Hl
     | apply (sort_sorted comparefn key ok comparefn_key), Hl].
  cbn [filter]. destruct (p x); [| exact IH].
  change (sort comparefn (x :: filter p l))
    with (sortInsert comparefn x (sort comparefn (filter p l))).
  rewrite IH. reflexivity.
Qed.

Hypothesis p_upward :
  forall x y, ok x -> ok y -> p x = true -> (key x <= key y)%Z -> p y = true.

(** In a descending list, what an upward-closed filter keeps is a prefix. *)
Lemma filter_prefix l :
  Forall ok l -> StronglySorted (descendingBy key) l ->
  filter p l = firstn (length (filter p l)) l.
Proof.
  intros Hl Hs. induction Hs as [| y l Hs IH Hy]; [reflexivity |].
  inversion Hl as [| ? ? Hoy Hol]; subst. specialize (IH Hol). cbn [filter].
  destruct (p y) eqn:Hpy.
  - cbn [length firstn]. f_equal. exact IH.
  - rewrite (filter_none p l); [reflexivity |].
    rewrite Forall_forall in *. intros z Hz.
    destruct (p z) eqn:Hpz; [| reflexivity].
    specialize (Hy z Hz). unfold descendingBy in Hy.
    rewrite (p_upward z y (Hol z Hz) Hoy Hpz Hy) in Hpy. discriminate.
Qed.

End SortFilter.

(* ================================================================== *)
(** * Further properties: the percentages of an analysis *)
(* ================================================================== *)

Lemma takeWhile_dropWhile {A} (p : A -> bool) (l : list A) :
  takeWhile p l ++ dropWhile p l = l.
Proof.
  induction l as [| x l IH]; [reflexivity |].
  cbn [takeWhile dropWhile]. destruct (p x); [| reflexivity].
  cbn [app]. f_equal. exact IH.
Qed.

Lemma takeWhile_forallb {A} (p : A -> bool) (l : list A) :
  forallb p (takeWhile p l) = true.
Proof.
  induction l as [| x l IH]; [reflexivity |].
  cbn [takeWhile]. destruct (p x) eqn:Hx; [| reflexivity].
  cbn [forallb]. rewrite Hx. exact IH.
Qed.

Lemma takeWhile_app_stop {A} (p : A -> bool) (l : list A) (x : A) (r : list A) :
  forallb p l = true -> p x = false ->
  takeWhile p (l ++ x :: r) = l /\ dropWhile p (l ++ x :: r) = x :: r.
Proof.
  intros Hl Hx. induction l as [| y l IH]; cbn [app takeWhile dropWhile].
  - rewrite Hx. split; reflexivity.
  - cbn [forallb] in Hl. apply andb_prop in Hl as [Hy Hl]. rewrite Hy.
    destruct (IH Hl) as [-> ->]. split; reflexivity.
Qed.

Lemma takeWhile_all {A} (p : A -> bool) (l : list A) :
  forallb p l = true -> takeWhile p l = l /\ dropWhile p l = [].
Proof.
  induction l as [| y l IH]; intros Hl; cbn [takeWhile dropWhile];
    [split; reflexivity |].
  cbn [forallb] in Hl. apply andb_prop in Hl as [Hy Hl]. rewrite Hy.
  destruct (IH Hl) as [-> ->]. split; reflexivity.
Qed.

(** What [\s*%] consumes ends with a percent sign. *)
Lemma percentTail_sign s n :
  percentTail s = Some n ->
  exists before after, s = before ++ 37%N :: after /\ n = length before + 1.
Proof.
  unfold percentTail. intros H.
  pose proof (takeWhile_dropWhile isWhiteSpace s) as Hs.
  destruct (dropWhile isWhiteSpace s) as [| c after]; [discriminate |].
  destruct (N.eqb_spec c 37) as [-> |]; [| discriminate].
  injection H as <-. exists (takeWhile isWhiteSpace s), after.
  split; [symmetry; exact Hs | reflexivity].
Qed.

(** A match is a decimal numeral, and it reaches a percent sign. *)
Lemma matchPercentAt_found s capture len :
  matchPercentAt s = Some (capture, len) ->
  decimalNumeral capture = true
  /\ exists before after, s = before ++ 37%N :: after /\ len = length before + 1.
Proof.
  unfold matchPercentAt. intros H.
  pose proof (takeWhile_dropWhile isDigit s) as Hs.
  pose proof (takeWhile_forallb isDigit s) as Hwhole.
  destruct (takeWhile isDigit s) as [| d whole] eqn:Ew; [discriminate |].
  set (w := d :: whole) in *.
  assert (Hplain : forall n, percentTail (dropWhile isDigit s) = Some n ->
            decimalNumeral w = true
            /\ exists before after, s = before ++ 37%N :: after
                                    /\ length w + n = length before + 1).
  { intros n Hn. split.
    - unfold decimalNumeral. destruct (takeWhile_all isDigit w Hwhole) as [-> ->].
      reflexivity.
    - destruct (percentTail_sign _ _ Hn) as (before & after & Hb & ->).
      exists (w ++ before), after. split.
      + rewrite <- Hs, Hb, <- app_assoc. reflexivity.
      + rewrite length_app. lia. }
  destruct (dropWhile isDigit s) as [| c rest'] eqn:Er.
  { destruct (percentTail []) as [n |] eqn:Et; [| discriminate].
    injection H as <- <-. apply Hplain. reflexivity. }
  destruct (N.eqb_spec c 46) as [-> | Hc].
  2:{ destruct (percentTail (c :: rest')) as [n |] eqn:Et; [| discriminate].
      injection H as <- <-. apply Hplain. reflexivity. }
  pose proof (takeWhile_dropWhile isDigit rest') as Hr.
  pose proof (takeWhile_forallb isDigit rest') as Hfrac.
  destruct (takeWhile isDigit rest') as [| f fraction] eqn:Ef.
  { destruct (percentTail (46%N :: rest')) as [n |] eqn:Et; [| discriminate].
    injection H as <- <-. apply Hplain. reflexivity. }
  set (fr := f :: fraction) in *.
  destruct (percentTail (dropWhile isDigit rest')) as [n |] eqn:Et.
  - injection H as <- <-. split.
    + unfold decimalNumeral. change (d :: whole ++ 46%N :: fr) with (w ++ 46%N :: fr).
      destruct (takeWhile_app_stop isDigit w 46%N fr Hwhole eq_refl) as [-> ->].
      cbn [N.eqb Pos.eqb andb]. rewrite Hfrac. reflexivity.
    + destruct (percentTail_sign _ _ Et) as (before & after & Hb & ->).
      exists (w ++ (46%N :: fr) ++ before), after. split.
      * rewrite <- Hs, <- Hr, Hb. rewrite <- (app_assoc w).
        rewrite <- (app_assoc (46%N :: fr)). reflexivity.
      * rewrite (length_app w), (length_app (46%N :: fr)). subst w fr.
        cbn [length]. lia.
  - destruct (percentTail (46%N :: rest')) as [n |] eqn:Et'; [| discriminate].
    injection H as <- <-. apply Hplain. reflexivity.
Qed.

Lemma percentCaptures_numerals skip s :
  Forall (fun capture => decimalNumeral capture = true) (percentCaptures skip s).
Proof.
  revert skip. induction s as [| c s IH]; intros skip; cbn [percentCaptures];
    [constructor |].
  destruct skip as [| k]; [| apply IH].
  destruct (matchPercentAt (c :: s)) as [[capture len] |] eqn:E; [| apply IH].
  constructor; [| apply IH]. apply (matchPercentAt_found _ _ _ E).
Qed.

Lemma percentSigns_app a b : percentSigns (a ++ b) = percentSigns a + percentSigns b.
Proof. apply count_occ_app. Qed.

Lemma percentSigns_skipn n s : percentSigns (skipn n s) <= percentSigns s.
Proof.
  rewrite <- (firstn_skipn n s) at 2. rewrite percentSigns_app. lia.
Qed.

Lemma skipn_past {A} (a : list A) (x : A) (b : list A) :
  skipn (length a + 1) (a ++ x :: b) = b.
Proof. induction a as [| y a IH]; [reflexivity | exact IH]. Qed.

(** Every match uses up a percent sign of its own. *)
Lemma percentCaptures_signs skip s :
  length (percentCaptures skip s) <= percentSigns (skipn skip s).
Proof.
  revert skip. induction s as [| c s IH]; intros skip.
  - cbn [percentCaptures length]. lia.
  - cbn [percentCaptures]. destruct skip as [| k]; [| apply IH].
    destruct (matchPercentAt (c :: s)) as [[capture len] |] eqn:E.
    + destruct (matchPercentAt_found _ _ _ E) as (_ & before & after & Hs & ->).
      cbn [length skipn]. specialize (IH (length before + 1 - 1)).
      rewrite Hs. rewrite percentSigns_app.
      assert (Hsk : skipn (length before + 1 - 1) s = after).
      { destruct before as [| b before]; cbn [app] in Hs; injection Hs as _ ->.
        - reflexivity.
        - cbn [length].
          replace (S (length before) + 1 - 1) with (length before + 1) by lia.
          apply skipn_past. }
      rewrite Hsk in IH. unfold percentSigns at 2.
      cbn [count_occ]. destruct (N.eq_dec 37 37) as [_ | Hne]; [| contradiction].
      fold (percentSigns after). lia.
    + specialize (IH 0). cbn [skipn] in *. unfold percentSigns in *.
      cbn [count_occ]. destruct (N.eq_dec c 37); lia.
Qed.

Lemma extractPercentages_length (parseFloat : jsstring -> float) text keywords :
  length (extractPercentages parseFloat text keywords) <= Nat.min 4 (percentSigns text).
Proof.
  unfold extractPercentages.
  change 4%Z with (Z.of_nat 4). rewrite slice0_firstn, length_firstn, length_map.
  pose proof (percentCaptures_signs 0 text) as H. cbn [skipn] in H. lia.
Qed.

(* ================================================================== *)
(** * Properties of the retrieval helpers and handlers *)
(* ================================================================== *)

(** C1. For every store, query embedding, threshold and limit,
    [retrieveRelevantContext] returns the first [limit] elements of a
    ranking that holds exactly the scored chunks whose similarity is
    strictly greater than the threshold, in descending order of
    similarity, the chunks of every tie in their insertion order.  In
    particular, on four chunks of similarities 0.9, 0.5, 0.5 and 0.2, with
    threshold 0.4 and limit 2, the result is the 0.9 chunk followed by the
    first-inserted 0.5 chunk. *)
Theorem C1_query_ranking :
  (forall (store : list Chunk.t) (queryEmbedding : list float)
          (threshold : float) (limit : nat),
      exists ranked : list ScoredChunk,
        retrieveRelevantContext store threshold queryEmbedding (Z.of_nat limit)
        = firstn limit ranked
        /\ Permutation ranked
             (filter (aboveThreshold threshold) (scoreAll queryEmbedding store))
        /\ StronglySorted
             (fun a b => (similarity b <=? similarity a)%float = true) ranked
        /\ forall s,
             filter (tiedAt s) ranked
             = filter (tiedAt s)
                 (filter (aboveThreshold threshold) (scoreAll queryEmbedding store)))
  /\ (forall (queryEmbedding : list float) (d1 d2 d3 d4 : Chunk.t),
        calculateSimilarity queryEmbedding (Chunk.embedding d1) = 0.9%float ->
        calculateSimilarity queryEmbedding (Chunk.embedding d2) = 0.5%float ->
        calculateSimilarity queryEmbedding (Chunk.embedding d3) = 0.5%float ->
        calculateSimilarity queryEmbedding (Chunk.embedding d4) = 0.2%float ->
        retrieveRelevantContext [d1; d2; d3; d4] 0.4%float queryEmbedding 2
        = [ {| doc := d1; similarity := 0.9%float |};
            {| doc := d2; similarity := 0.5%float |} ]).
Proof.
  split.
  - intros store q threshold limit.
    exists (sort (fun a b => (similarity b - similarity a)%float)
              (filter (aboveThreshold threshold) (scoreAll q store))).
    split; [| apply ranked_properties].
    unfold retrieveRelevantContext.
    destruct store as [| d store]; [destruct limit; reflexivity |].
    cbn [length Nat.eqb]. apply slice0_firstn.
  - intros q d1 d2 d3 d4 H1 H2 H3 H4.
    unfold retrieveRelevantContext, scoreAll. cbn [length Nat.eqb map].
    rewrite H1, H2, H3, H4. vm_compute. reflexivity.
Qed.

(** The ranking example on four stored vectors whose similarities to the
    query [1; 0; 0; 0] are exactly 0.9, 0.5, 0.5 and 0.2. *)
Lemma C1_query_ranking_witness :
  retrieveRelevantContext
    [chunkOf "a" [9; 3; 3; 1]%float; chunkOf "b" [5; 5; 5; 5]%float;
     chunkOf "c" [1; 1; 1; 1]%float; chunkOf "d" [2; 4; 4; 8]%float]
    0.4%float [1; 0; 0; 0]%float 2
  = [ {| doc := chunkOf "a" [9; 3; 3; 1]%float; similarity := 0.9%float |};
      {| doc := chunkOf "b" [5; 5; 5; 5]%float; similarity := 0.5%float |} ].
Proof.
  apply (proj2 C1_query_ranking); vm_compute; reflexivity.
Defined.

(** C10. When one of two vectors of equal length is a zero vector,
    [calculateSimilarity] divides by zero and returns NaN, which is not
    greater than any threshold, so no query ever returns the chunk.  The
    fallback vector of a text with no vocabulary keyword is such a vector. *)
Theorem C10_zero_norm_similarity_is_nan :
  (forall v1 v2 : list float,
      length v1 = length v2 ->
      Forall (fun x => isZero x = true) v1 \/ Forall (fun x => isZero x = true) v2 ->
      is_nan (calculateSimilarity v1 v2) = true
      /\ forall threshold, (threshold <? calculateSimilarity v1 v2)%float = false)
  /\ (forall store threshold queryEmbedding limit c,
        In c (retrieveRelevantContext store threshold queryEmbedding limit) ->
        length queryEmbedding = length (Chunk.embedding (doc c)) ->
        ~ (Forall (fun x => isZero x = true) queryEmbedding
           \/ Forall (fun x => isZero x = true) (Chunk.embedding (doc c))))
  /\ (forall toLowerCase : jsstring -> jsstring,
        toLowerCase (str "Hello world") = str "hello world" ->
        Forall (fun x => isZero x = true)
          (generateKeywordVector toLowerCase (str "Hello world"))).
Proof.
  split; [| split].
  - intros v1 v2 Hlen Hz.
    pose proof (zero_vector_similarity_nan v1 v2 Hlen Hz) as Hnan.
    split; [exact Hnan |]. intros threshold. apply ltb_nan_r. exact Hnan.
  - intros store threshold q limit c Hin Hlen Hz.
    apply retrieved_above_threshold in Hin as [Hsim Hthr].
    rewrite Hsim in Hthr.
    rewrite (ltb_nan_r _ _ (zero_vector_similarity_nan _ _ Hlen Hz)) in Hthr.
    discriminate.
  - intros toLowerCase H. unfold generateKeywordVector. rewrite H.
    vm_compute. repeat constructor.
Qed.

(** A zero query against a stored vector. *)
Lemma C10_zero_norm_similarity_is_nan_witness :
  is_nan (calculateSimilarity [0; 0; 0]%float [1; 2; 3]%float) = true
  /\ forall threshold,
       (threshold <? calculateSimilarity [0; 0; 0]%float [1; 2; 3]%float)%float = false.
Proof.
  apply (proj1 C10_zero_norm_similarity_is_nan).
  - reflexivity.
  - left. repeat constructor.
Defined.

(** C3. [generateEmbedding] never completes abruptly: with no API key it
    returns the keyword-fallback vector, and when the request is rejected
    or the response cannot be read it returns the same fallback vector
    instead of raising. *)
Theorem C3_generateEmbedding_never_throws :
  forall (toLowerCase : jsstring -> jsstring) (OPENAI_API_KEY : option jsstring)
         (axios_post : jsstring -> jsval -> completion jsval) (text : jsstring),
    let fallback := vectorValue (generateKeywordVector toLowerCase text) in
    (exists v, generateEmbedding toLowerCase OPENAI_API_KEY axios_post text = Return v)
    /\ (keyMissing OPENAI_API_KEY = true ->
        generateEmbedding toLowerCase OPENAI_API_KEY axios_post text = Return fallback)
    /\ (forall e, axios_post embeddingsUrl (embeddingRequest text) = Throw e ->
        generateEmbedding toLowerCase OPENAI_API_KEY axios_post text = Return fallback)
    /\ (forall e, remoteEmbedding axios_post text = Throw e ->
        generateEmbedding toLowerCase OPENAI_API_KEY axios_post text = Return fallback).
Proof.
  intros toLowerCase key axios_post text fallback.
  assert (Hremote : forall e, remoteEmbedding axios_post text = Throw e ->
            generateEmbedding toLowerCase key axios_post text = Return fallback).
  { intros e He. unfold generateEmbedding. rewrite He.
    destruct (keyMissing key); reflexivity. }
  repeat split.
  - unfold generateEmbedding. destruct (keyMissing key); cbn [tryCatch]; [eauto |].
    destruct (remoteEmbedding axios_post text); cbn [tryCatch]; eauto.
  - intros Hk. unfold generateEmbedding. rewrite Hk. reflexivity.
  - intros e He. apply (Hremote e). unfold remoteEmbedding. rewrite He. reflexivity.
  - exact Hremote.
Qed.

(** A configured key and a request that is rejected. *)
Lemma C3_generateEmbedding_never_throws_witness :
  generateEmbedding (fun s => s) (Some (str "sk-test"))
    (fun _ _ => Throw {| message := str "Network Error" |}) (str "market data")
  = Return (vectorValue (generateKeywordVector (fun s => s) (str "market data"))).
Proof.
  apply (proj1 (proj2 (proj2 (C3_generateEmbedding_never_throws
                                (fun s => s) (Some (str "sk-test"))
                                (fun _ _ => Throw {| message := str "Network Error" |})
                                (str "market data"))))
           {| message := str "Network Error" |}).
  reflexivity.
Defined.

(** C4. The keyword-fallback vector has one component per vocabulary
    term (24 of them); the component of a term is
    occurrences(term, lowercased text) / length(text) * 1000; and identical
    texts give identical vectors. *)
Theorem C4_keyword_vector :
  forall (toLowerCase : jsstring -> jsstring) (text : jsstring),
    length (generateKeywordVector toLowerCase text) = length keywords
    /\ length keywords = 24
    /\ (forall i term,
          nth_error keywords i = Some term ->
          nth_error (generateKeywordVector toLowerCase text) i
          = Some (Number (Z.of_nat (occurrences term (toLowerCase text)))
                  / Number (Z.of_nat (length text)) * 1000)%float)
    /\ (forall text', text' = text ->
          generateKeywordVector toLowerCase text'
          = generateKeywordVector toLowerCase text).
Proof.
  intros toLowerCase text. unfold generateKeywordVector.
  split; [apply length_map |]. split; [reflexivity |]. split.
  - intros i term Hi. rewrite nth_error_map, Hi. cbn [option_map].
    rewrite matchCount_occurrences; [reflexivity |].
    pose proof keywords_nonempty as Hne. rewrite Forall_forall in Hne.
    apply Hne. eapply nth_error_In. exact Hi.
  - intros text' ->. reflexivity.
Qed.

(** The component of the first vocabulary term on a short text. *)
Lemma C4_keyword_vector_witness :
  nth_error (generateKeywordVector (fun s => s) (str "market data and market share")) 0
  = Some (Number (Z.of_nat (occurrences (str "market")
                              (str "market data and market share")))
          / Number (Z.of_nat (length (str "market data and market share"))) * 1000)%float.
Proof.
  apply (proj1 (proj2 (proj2 (C4_keyword_vector (fun s => s)
                                (str "market data and market share"))))).
  reflexivity.
Defined.

(** C5. For an index inside the registry, the delete handler removes that
    training example, removes from the chunk store every chunk whose source
    name is the example's, and reports the example's name with the number
    of chunks removed.  In particular, after an upload that produced three
    chunks under a fresh name, deleting that example reports three removed
    chunks and leaves the stores as they were before the upload. *)
Theorem C5_delete_cascades :
  (forall (indexParam : jsstring) (z : Z) (st : ServerState),
      parseInt indexParam = PInt z ->
      (0 <= z < Z.of_nat (length (trainingExamples st)))%Z ->
      exists removed,
        nth_error (trainingExamples st) (Z.to_nat z) = Some removed
        /\ deleteTrainingExample indexParam st
           = (Deleted (TrainingExample.fileName removed)
                (length (filter (fromSource (TrainingExample.fileName removed))
                           (documentStore st)))
                (length (trainingExamples st) - 1),
              {| trainingExamples :=
                   firstn (Z.to_nat z) (trainingExamples st)
                   ++ skipn (S (Z.to_nat z)) (trainingExamples st);
                 documentStore :=
                   filter (fun d => negb (fromSource (TrainingExample.fileName removed) d))
                     (documentStore st) |}))
  /\ (forall embed extractKeywords now trainingData fileName category st indexParam,
        nonEmpty trainingData = true -> nonEmpty fileName = true ->
        Forall (fun d => fromSource fileName d = false) (documentStore st) ->
        length (splitIntoChunks trainingData 500) = 3 ->
        parseInt indexParam = PInt (Z.of_nat (length (trainingExamples st))) ->
        let uploaded :=
          uploadTraining embed extractKeywords now true trainingData fileName category st in
        fst uploaded = Uploaded (S (length (trainingExamples st))) 3
        /\ length (documentStore (snd uploaded)) = length (documentStore st) + 3
        /\ deleteTrainingExample indexParam (snd uploaded)
           = (Deleted fileName 3 (length (trainingExamples st)), st)).
Proof.
  split.
  - intros indexParam z st Hp Hz.
    destruct (splice1_in_bounds z (trainingExamples st) Hz) as (removed & Hn & Hs).
    exists removed. split; [exact Hn |].
    rewrite (delete_removed indexParam st removed
               (firstn (Z.to_nat z) (trainingExamples st)
                ++ skipn (S (Z.to_nat z)) (trainingExamples st)));
      rewrite ?Hp; cbn [numLt numGe].
    + do 2 f_equal. rewrite length_app, length_firstn, length_skipn. lia.
    + apply Z.ltb_ge. lia.
    + apply Z.leb_gt. lia.
    + exact Hs.
  - intros embed extractKeywords now trainingData fileName category st indexParam
      Hdata Hname Hfresh Hthree Hp uploaded.
    destruct st as [examples store]. cbn [trainingExamples documentStore] in *.
    subst uploaded. unfold uploadTraining, processDocument.
    rewrite Hdata, Hname. cbn [negb orb fst snd trainingExamples documentStore].
    set (example := TrainingExample.mk trainingData fileName now category
                      (extractKeywords trainingData)).
    set (processed := processChunks embed extractKeywords now fileName category
                        (length (splitIntoChunks trainingData 500)) 0
                        (splitIntoChunks trainingData 500)).
    assert (Hlen : length processed = 3).
    { unfold processed. rewrite processChunks_length. exact Hthree. }
    assert (Hsrc : Forall (fun d => fromSource fileName d = true) processed).
    { eapply Forall_impl; [| apply processChunks_fileName].
      cbn beta. intros d Hd. unfold fromSource. rewrite Hd. apply jsstring_eqb_refl. }
    rewrite !length_app, Hlen. cbn [length].
    split; [f_equal; lia |]. split; [reflexivity |].
    assert (Hz : (0 <= Z.of_nat (length examples)
                  < Z.of_nat (length (examples ++ [example])))%Z).
    { rewrite length_app. cbn [length]. lia. }
    destruct (splice1_in_bounds _ (examples ++ [example]) Hz) as (removed & Hn & Hs).
    rewrite Nat2Z.id in Hn, Hs.
    rewrite nth_error_app2, Nat.sub_diag in Hn by lia. cbn [nth_error] in Hn.
    injection Hn as <-.
    rewrite firstn_app, firstn_all, Nat.sub_diag in Hs. cbn [firstn] in Hs.
    rewrite skipn_all2 in Hs by (rewrite length_app; cbn [length]; lia).
    rewrite !app_nil_r in Hs.
    rewrite (delete_removed indexParam _ example examples);
      cbn [trainingExamples documentStore]; rewrite ?Hp; cbn [numLt numGe].
    + cbn [TrainingExample.fileName example]. rewrite !filter_app.
      rewrite (filter_none (fromSource fileName) store Hfresh).
      rewrite (filter_all (fromSource fileName) processed Hsrc).
      rewrite (filter_all _ store), (filter_none _ processed).
      * rewrite app_nil_r. cbn [app]. rewrite Hlen. reflexivity.
      * eapply Forall_impl; [| exact Hsrc]. cbn beta. intros d ->. reflexivity.
      * eapply Forall_impl; [| exact Hfresh]. cbn beta. intros d ->. reflexivity.
    + apply Z.ltb_ge. lia.
    + apply Z.leb_gt. lia.
    + exact Hs.
Qed.

(** An upload of a three-chunk document into empty stores, then its
    deletion. *)
Lemma C5_delete_cascades_witness :
  let uploaded :=
    uploadTraining (fun _ => []) (fun _ => []) (str "2024-01-01T00:00:00.000Z") true
      threeChunkText (str "report.txt") (str "training") emptyState in
  fst uploaded = Uploaded 1 3
  /\ length (documentStore (snd uploaded)) = 0 + 3
  /\ deleteTrainingExample (str "0") (snd uploaded)
     = (Deleted (str "report.txt") 3 0, emptyState).
Proof.
  apply (proj2 C5_delete_cascades (fun _ => []) (fun _ => [])
           (str "2024-01-01T00:00:00.000Z") threeChunkText (str "report.txt")
           (str "training") emptyState (str "0")).
  - reflexivity.
  - reflexivity.
  - constructor.
  - vm_compute. reflexivity.
  - reflexivity.
Defined.

(** C6. For an index below zero or not below the number of training
    examples, the delete handler answers NotFound and leaves the registry and
    the chunk store as they were. *)
Theorem C6_delete_out_of_bounds :
  forall (indexParam : jsstring) (z : Z) (st : ServerState),
    parseInt indexParam = PInt z ->
    (z < 0 \/ Z.of_nat (length (trainingExamples st)) <= z)%Z ->
    deleteTrainingExample indexParam st = (NotFound, st).
Proof.
  intros indexParam z st Hp Hz. unfold deleteTrainingExample.
  rewrite Hp. cbn [numLt numGe].
  destruct (Z.ltb_spec z 0) as [H | H]; [reflexivity |].
  destruct (Z.leb_spec (Z.of_nat (length (trainingExamples st))) z) as [H' | H'];
    [reflexivity | lia].
Qed.

(** Index 7 on a registry of two examples. *)
Lemma C6_delete_out_of_bounds_witness :
  deleteTrainingExample (str "7")
    {| trainingExamples := [exampleOf "a.txt"; exampleOf "b.txt"];
       documentStore := [chunkOf "a.txt" []] |}
  = (NotFound,
     {| trainingExamples := [exampleOf "a.txt"; exampleOf "b.txt"];
        documentStore := [chunkOf "a.txt" []] |}).
Proof.
  apply (C6_delete_out_of_bounds (str "7") 7).
  - reflexivity.
  - right. cbn. lia.
Defined.

(** C9. When the index parameter does not parse to a number, the bounds
    guard lets it through and [splice(NaN, 1)] removes the first training
    example: the handler deletes element 0 and cascades to its chunks instead
    of answering NotFound. *)
Theorem C9_delete_unparsable_index :
  forall (indexParam : jsstring) (st : ServerState),
    parseInt indexParam = PNaN ->
    numLt (parseInt indexParam) 0
    || numGe (parseInt indexParam) (Z.of_nat (length (trainingExamples st))) = false
    /\ fst (deleteTrainingExample indexParam st) <> NotFound
    /\ forall first rest,
         trainingExamples st = first :: rest ->
         deleteTrainingExample indexParam st
         = (Deleted (TrainingExample.fileName first)
              (length (filter (fromSource (TrainingExample.fileName first))
                         (documentStore st)))
              (length rest),
            {| trainingExamples := rest;
               documentStore :=
                 filter (fun d => negb (fromSource (TrainingExample.fileName first) d))
                   (documentStore st) |}).
Proof.
  intros indexParam st Hp.
  assert (Hdel : forall first rest,
             trainingExamples st = first :: rest ->
             deleteTrainingExample indexParam st
             = (Deleted (TrainingExample.fileName first)
                  (length (filter (fromSource (TrainingExample.fileName first))
                             (documentStore st)))
                  (length rest),
                {| trainingExamples := rest;
                   documentStore :=
                     filter (fun d => negb (fromSource (TrainingExample.fileName first) d))
                       (documentStore st) |})).
  { intros first rest Hex.
    apply delete_removed; rewrite ?Hp; try reflexivity.
    rewrite Hex. apply splice1_nan. }
  split; [rewrite Hp; reflexivity |]. split; [| exact Hdel].
  destruct (trainingExamples st) as [| first rest] eqn:Hex.
  - unfold deleteTrainingExample. rewrite Hp, Hex. cbn. discriminate.
  - rewrite (Hdel first rest eq_refl). cbn. discriminate.
Qed.

(** The index [abc] on a registry of two examples: the first one goes,
    with its two chunks. *)
Lemma C9_delete_unparsable_index_witness :
  deleteTrainingExample (str "abc")
    {| trainingExamples := [exampleOf "a.txt"; exampleOf "b.txt"];
       documentStore := [chunkOf "a.txt" []; chunkOf "b.txt" []; chunkOf "a.txt" []] |}
  = (Deleted (str "a.txt") 2 1,
     {| trainingExamples := [exampleOf "b.txt"];
        documentStore := [chunkOf "b.txt" []] |}).
Proof.
  exact (proj2 (proj2 (C9_delete_unparsable_index (str "abc")
           {| trainingExamples := [exampleOf "a.txt"; exampleOf "b.txt"];
              documentStore := [chunkOf "a.txt" []; chunkOf "b.txt" [];
                                chunkOf "a.txt" []] |} eq_refl))
           (exampleOf "a.txt") [exampleOf "b.txt"] eq_refl).
Defined.

(** C7 as stated fails: a field supplied with a value that is not
    undefined is not always overwritten.  POST /admin/rag-settings keeps the
    previous mode when the patch supplies the empty string, and
    POST /admin/update-api-settings keeps the previous model when the patch
    supplies the empty string. *)
Lemma C7_settings_merge_counterexample :
  (isDefined (JStr []) = true
   /\ RagSettings.mode
        (fst (updateRagSettings
                {| body_enabled := JUndefined; body_mode := JStr [];
                   body_threshold := JUndefined; body_maxExamples := JUndefined |}
                (initialRagSettings, initialAdminSettings)))
      = JStr (str "learning"))
  /\ AdminSettings.claudeModel
       (updateApiSettings (fun _ => nan) (fun _ => nan)
          {| body_claudeModel := JStr []; body_maxTokens := JUndefined;
             body_temperature := JUndefined; body_ragEnabled := JUndefined;
             body_similarityThreshold := JUndefined;
             body_maxTrainingExamples := JUndefined |}
          initialAdminSettings)
     = JStr (str "claude-3-5-sonnet-20241022").
Proof. repeat split. Qed.

(** C7, amended.  POST /admin/rag-settings overwrites [enabled],
    [similarityThreshold] and [maxExamples] exactly when the patch value is
    not undefined, overwrites [mode] exactly when the patch value is truthy,
    and mirrors the three into the admin settings; so a patch with
    similarityThreshold = 0 stores 0.  POST /admin/update-api-settings
    overwrites [temperature] (with its [parseFloat]) and [ragEnabled] exactly
    when the patch value is not undefined, and [claudeModel] and [maxTokens]
    (with its [parseInt]) exactly when the patch value is truthy; a truthy
    [similarityThreshold] or [maxTrainingExamples] is stored parsed.  A field
    the patch leaves undefined keeps its prior value. *)
Theorem C7_settings_merge_amended :
  forall (parseIntOf parseFloatOf : jsval -> float),
    (forall body ragSettings adminSettings,
        let updated := updateRagSettings body (ragSettings, adminSettings) in
        RagSettings.enabled (fst updated)
        = orPrevious (body_enabled body) (RagSettings.enabled ragSettings)
        /\ RagSettings.similarityThreshold (fst updated)
           = orPrevious (body_threshold body) (RagSettings.similarityThreshold ragSettings)
        /\ RagSettings.maxExamples (fst updated)
           = orPrevious (body_maxExamples body) (RagSettings.maxExamples ragSettings)
        /\ RagSettings.mode (fst updated)
           = (if truthy (body_mode body) then body_mode body
              else RagSettings.mode ragSettings)
        /\ AdminSettings.ragEnabled (snd updated) = RagSettings.enabled (fst updated)
        /\ AdminSettings.similarityThreshold (snd updated)
           = RagSettings.similarityThreshold (fst updated)
        /\ AdminSettings.maxTrainingExamples (snd updated)
           = RagSettings.maxExamples (fst updated)
        /\ AdminSettings.systemPrompt (snd updated) = AdminSettings.systemPrompt adminSettings
        /\ AdminSettings.claudeModel (snd updated) = AdminSettings.claudeModel adminSettings
        /\ AdminSettings.maxTokens (snd updated) = AdminSettings.maxTokens adminSettings
        /\ AdminSettings.temperature (snd updated) = AdminSettings.temperature adminSettings)
    /\ (forall ragSettings adminSettings,
          let updated :=
            updateRagSettings
              {| body_enabled := JUndefined; body_mode := JUndefined;
                 body_threshold := JNum 0; body_maxExamples := JUndefined |}
              (ragSettings, adminSettings) in
          RagSettings.similarityThreshold (fst updated) = JNum 0
          /\ AdminSettings.similarityThreshold (snd updated) = JNum 0)
    /\ (forall body adminSettings,
          let updated := updateApiSettings parseIntOf parseFloatOf body adminSettings in
          AdminSettings.temperature updated
          = (if isDefined (body_temperature body)
             then JNum (parseFloatOf (body_temperature body))
             else AdminSettings.temperature adminSettings)
          /\ AdminSettings.ragEnabled updated
             = orPrevious (body_ragEnabled body) (AdminSettings.ragEnabled adminSettings)
          /\ AdminSettings.claudeModel updated
             = (if truthy (body_claudeModel body) then body_claudeModel body
                else AdminSettings.claudeModel adminSettings)
          /\ AdminSettings.maxTokens updated
             = (if truthy (body_maxTokens body)
                then JNum (parseIntOf (body_maxTokens body))
                else AdminSettings.maxTokens adminSettings)
          /\ (truthy (body_similarityThreshold body) = true ->
              AdminSettings.similarityThreshold updated
              = JNum (parseFloatOf (body_similarityThreshold body)))
          /\ (body_similarityThreshold body = JUndefined ->
              AdminSettings.similarityThreshold updated
              = AdminSettings.similarityThreshold adminSettings)
          /\ (truthy (body_maxTrainingExamples body) = true ->
              AdminSettings.maxTrainingExamples updated
              = JNum (parseIntOf (body_maxTrainingExamples body)))
          /\ (body_maxTrainingExamples body = JUndefined ->
              AdminSettings.maxTrainingExamples updated
              = AdminSettings.maxTrainingExamples adminSettings)
          /\ AdminSettings.systemPrompt updated = AdminSettings.systemPrompt adminSettings).
Proof.
  intros parseIntOf parseFloatOf. split; [| split].
  - intros body ragSettings adminSettings. cbn. repeat split.
  - intros ragSettings adminSettings. cbn. split; reflexivity.
  - intros body adminSettings. cbn. repeat split.
    + intros ->. reflexivity.
    + intros ->. reflexivity.
    + intros ->. reflexivity.
    + intros ->. reflexivity.
Qed.

(** A truthy threshold sent to POST /admin/update-api-settings. *)
Lemma C7_settings_merge_amended_witness :
  AdminSettings.similarityThreshold
    (updateApiSettings (fun _ => nan) (fun _ => 0.5%float)
       {| body_claudeModel := JUndefined; body_maxTokens := JUndefined;
          body_temperature := JUndefined; body_ragEnabled := JUndefined;
          body_similarityThreshold := JStr (str "0.5");
          body_maxTrainingExamples := JUndefined |}
       initialAdminSettings)
  = JNum 0.5.
Proof.
  exact (proj1 (proj2 (proj2 (proj2 (proj2
           (proj2 (proj2 (C7_settings_merge_amended (fun _ => nan) (fun _ => 0.5%float)))
              {| body_claudeModel := JUndefined; body_maxTokens := JUndefined;
                 body_temperature := JUndefined; body_ragEnabled := JUndefined;
                 body_similarityThreshold := JStr (str "0.5");
                 body_maxTrainingExamples := JUndefined |}
              initialAdminSettings))))) eq_refl).
Defined.

(** The chunker on a small text, size bound 12: the first two sentences
    fit one chunk, the third starts the next; the text's own terminators
    are replaced by the separator. *)
Example splitIntoChunks_small :
  splitIntoChunks (str "One. Two! Three?") 12 = [str "One.  Two."; str "Three."].
Proof. vm_compute. reflexivity. Qed.

(** C2. [splitIntoChunks] splits the text at its terminal [.], [!] and
    [?], keeps the sentences that are not empty once trimmed, and
    accumulates them greedily: a sentence joins the current chunk unless
    that would meet or exceed [maxChunkSize], in which case the current
    chunk is emitted and the sentence starts a new one.  The chunk left at
    the end, which ends with the last sentence, is always emitted; and a
    sentence at least as long as [maxChunkSize] is emitted whole, as a chunk
    of its own. *)
Theorem C2_chunker_greedy :
  forall (text : jsstring) (maxChunkSize : Z),
    sentencesOf text = specSentences text
    /\ Forall (fun s => trim s <> []) (sentencesOf text)
    /\ splitIntoChunks text maxChunkSize
       = specChunks maxChunkSize [] (specSentences text)
    /\ (forall front last,
          sentencesOf text = front ++ [last] ->
          exists chunks g,
            splitIntoChunks text maxChunkSize
            = chunks ++ [trim (g ++ last ++ separator)])
    /\ (forall s,
          In s (sentencesOf text) ->
          (maxChunkSize <= Z.of_nat (length s))%Z ->
          In (trim (s ++ separator)) (splitIntoChunks text maxChunkSize)).
Proof.
  intros text maxChunkSize.
  split; [apply sentencesOf_spec |]. split; [| split; [| split]].
  - pose proof (sentencesOf_Forall text) as H.
    eapply Forall_impl; [| exact H]. cbn beta. intros s [Hb _] Ht.
    apply trim_nil in Ht. congruence.
  - rewrite splitIntoChunks_spec, sentencesOf_spec. reflexivity.
  - intros front last Hs. rewrite splitIntoChunks_spec, Hs. apply specChunks_last.
  - intros s Hin Hbig. rewrite splitIntoChunks_spec.
    apply specChunks_oversized; assumption.
Qed.

(** A sentence longer than the bound 5 is a chunk of its own. *)
Lemma C2_chunker_greedy_witness :
  In (trim (str " Three" ++ separator)) (splitIntoChunks (str "One. Two! Three?") 5).
Proof.
  apply (proj2 (proj2 (proj2 (proj2
           (C2_chunker_greedy (str "One. Two! Three?") 5))))).
  - vm_compute. right. right. left. reflexivity.
  - vm_compute. discriminate.
Defined.

(** C8. No chunk is the empty string; the chunks are the sentences of the
    text as the specification words them (the pieces between terminators
    that are not blank), in order and regrouped, each followed by the
    separator and each group trimmed; and reading the sentences back from
    the concatenated chunks gives the sentences of the text, up to the white
    space around them. *)
Theorem C8_chunks_reconstruct_sentences :
  forall (text : jsstring) (maxChunkSize : Z),
    Forall (fun chunk => chunk <> []) (splitIntoChunks text maxChunkSize)
    /\ (exists groups,
          concat groups = specSentences text
          /\ Forall (fun group => group <> []) groups
          /\ splitIntoChunks text maxChunkSize = map renderGroup groups)
    /\ map trim (specSentences (concat (splitIntoChunks text maxChunkSize)))
       = map trim (specSentences text).
Proof.
  intros text maxChunkSize. rewrite splitIntoChunks_spec.
  destruct (specChunks_groups maxChunkSize (sentencesOf text) [])
    as (groups & Hc & Hne & He).
  cbn [app] in Hc. change (joinGroup []) with (@nil N) in He.
  pose proof (sentencesOf_Forall text) as Hok.
  rewrite sentencesOf_spec in Hc, Hok.
  split; [apply specChunks_nonempty |]. split; [exists groups; auto |].
  rewrite He, specSentences_chunks.
  - rewrite Hc. reflexivity.
  - exact Hne.
  - rewrite Hc. exact Hok.
Qed.

Lemma C8_chunks_reconstruct_sentences_witness :
  specSentences (str " One. Two!  Three?") = [str " One"; str " Two"; str "  Three"]
  /\ splitIntoChunks (str " One. Two!  Three?") 12 = [str "One.  Two."; str "Three."]
  /\ Forall (fun chunk => chunk <> []) (splitIntoChunks (str " One. Two!  Three?") 12)
  /\ (exists groups,
        concat groups = specSentences (str " One. Two!  Three?")
        /\ Forall (fun group => group <> []) groups
        /\ splitIntoChunks (str " One. Two!  Three?") 12 = map renderGroup groups)
  /\ map trim (specSentences (concat (splitIntoChunks (str " One. Two!  Three?") 12)))
     = map trim (specSentences (str " One. Two!  Three?")).
Proof.
  split; [reflexivity |]. split; [reflexivity |].
  exact (C8_chunks_reconstruct_sentences (str " One. Two!  Three?") 12).
Defined.

(* ================================================================== *)
(** * Further properties of the code *)
(* ================================================================== *)

(** X1. Scoring is symmetric: exchanging the two vectors gives the same
    binary64 value, NaN included. *)
Theorem X1_similarity_symmetric :
  forall v1 v2 : list float, calculateSimilarity v1 v2 = calculateSimilarity v2 v1.
Proof.
  intros v1 v2. unfold calculateSimilarity.
  rewrite (Nat.eqb_sym (length v2) (length v1)).
  destruct (Nat.eqb (length v1) (length v2)); [| reflexivity]. cbn [negb].
  rewrite (similarity_fold_swap v1 v2 0 0 0).
  destruct (fold_left similarityStep (combine v1 v2) (0, 0, 0)%float) as [[d n1] n2].
  rewrite (mul_comm (sqrt n2) (sqrt n1)). reflexivity.
Qed.

(** X2. With a threshold that is not negative, a query never returns a
    chunk whose embedding has another dimension than the query embedding:
    its similarity is the 0 of the length guard, which does not pass the
    strict filter. *)
Theorem X2_dimension_mismatch_not_retrieved :
  forall store threshold queryEmbedding limit c,
    (0 <=? threshold)%float = true ->
    In c (retrieveRelevantContext store threshold queryEmbedding limit) ->
    length queryEmbedding = length (Chunk.embedding (doc c)).
Proof.
  intros store threshold q limit c Hthr Hin.
  apply retrieved_above_threshold in Hin as [Hsim Habove].
  destruct (Nat.eq_dec (length q) (length (Chunk.embedding (doc c)))) as [E | E];
    [exact E | exfalso].
  unfold calculateSimilarity in Hsim.
  apply Nat.eqb_neq in E. rewrite E in Hsim. cbn [negb] in Hsim.
  rewrite Hsim, (leb_ltb_false _ _ Hthr) in Habove. discriminate.
Qed.

Lemma X2_dimension_mismatch_not_retrieved_witness :
  length [1; 0; 0; 0]%float
  = length (Chunk.embedding (doc {| doc := chunkOf "a" [9; 3; 3; 1]%float;
                                    similarity := 0.9%float |})).
Proof.
  apply (X2_dimension_mismatch_not_retrieved
           [chunkOf "a" [9; 3; 3; 1]%float; chunkOf "short" [1; 0]%float]
           0.4%float [1; 0; 0; 0]%float 2).
  - reflexivity.
  - vm_compute. left. reflexivity.
Defined.

(** X3. A query returns at most [limit] chunks and at most as many as the
    store holds; each one is a stored chunk, carries the similarity of its
    embedding to the query, and that similarity is above the threshold. *)
Theorem X3_retrieval_bounded_and_sound :
  forall store threshold queryEmbedding (limit : nat),
    let result :=
      retrieveRelevantContext store threshold queryEmbedding (Z.of_nat limit) in
    length result <= limit
    /\ length result <= length store
    /\ Forall (fun c =>
                 In (doc c) store
                 /\ similarity c
                    = calculateSimilarity queryEmbedding (Chunk.embedding (doc c))
                 /\ (threshold <? similarity c)%float = true)
         result.
Proof.
  intros store threshold q limit result. subst result.
  split; [| split].
  - rewrite retrieve_slice, slice0_firstn. apply firstn_le_length.
  - rewrite retrieve_slice, slice0_firstn.
    etransitivity; [| apply (ranked_length threshold q store)].
    rewrite length_firstn. apply Nat.le_min_r.
  - rewrite Forall_forall. intros c Hc. split.
    + eapply retrieved_from_store. exact Hc.
    + eapply retrieved_above_threshold. exact Hc.
Qed.

(** X4. When the threshold is NaN (a threshold setting that did not parse
    as a number), every query returns nothing. *)
Theorem X4_nan_threshold_returns_nothing :
  forall store threshold queryEmbedding limit,
    is_nan threshold = true ->
    retrieveRelevantContext store threshold queryEmbedding limit = [].
Proof.
  intros store threshold q limit Hnan. rewrite retrieve_slice.
  rewrite (filter_none (aboveThreshold threshold)).
  - rewrite sort_nil. unfold slice0. apply firstn_nil.
  - rewrite Forall_forall. intros c _. apply ltb_nan_l. exact Hnan.
Qed.

Lemma X4_nan_threshold_returns_nothing_witness :
  retrieveRelevantContext [chunkOf "a" [9; 3; 3; 1]%float] nan [1; 0; 0; 0]%float 3 = [].
Proof. apply X4_nan_threshold_returns_nothing. reflexivity. Defined.



(** X6. When every sentence of the text is shorter than [maxChunkSize], no
    chunk is longer than [maxChunkSize]. *)
Theorem X6_chunks_within_bound :
  forall (text : jsstring) (maxChunkSize : Z),
    Forall (fun s => (Z.of_nat (length s) < maxChunkSize)%Z) (sentencesOf text) ->
    Forall (fun chunk => (Z.of_nat (length chunk) <= maxChunkSize)%Z)
      (splitIntoChunks text maxChunkSize).
Proof.
  intros text maxChunkSize H. rewrite splitIntoChunks_spec.
  apply specChunks_bounded; [exact H | left; reflexivity].
Qed.

Lemma X6_chunks_within_bound_witness :
  Forall (fun chunk => (Z.of_nat (length chunk) <= 12)%Z)
    (splitIntoChunks (str "One. Two! Three?") 12).
Proof.
  apply X6_chunks_within_bound. vm_compute. repeat constructor; discriminate.
Defined.

(** X7. There are never more chunks than sentences, and there is no chunk
    exactly when the text has no sentence; a text of white space only (the
    empty text included) gives no chunk. *)
Theorem X7_chunk_count :
  forall (text : jsstring) (maxChunkSize : Z),
    length (splitIntoChunks text maxChunkSize) <= length (sentencesOf text)
    /\ (splitIntoChunks text maxChunkSize = [] <-> sentencesOf text = [])
    /\ (blank text = true -> splitIntoChunks text maxChunkSize = []).
Proof.
  intros text maxChunkSize.
  destruct (chunks_are_grouped_sentences text maxChunkSize)
    as (groups & Hc & Hne & He).
  assert (Hiff : splitIntoChunks text maxChunkSize = [] <-> sentencesOf text = []).
  { rewrite He, <- Hc. split.
    - intros H. apply map_eq_nil in H. subst groups. reflexivity.
    - intros H. destruct groups as [| g groups]; [reflexivity |].
      inversion Hne; subst. destruct g; [congruence | discriminate H]. }
  split; [| split; [exact Hiff |]].
  - rewrite He, length_map, <- Hc. apply concat_nonempty_length, Hne.
  - intros Hb. apply Hiff, sentencesOf_blank, Hb.
Qed.

Lemma X7_chunk_count_witness : splitIntoChunks (str "   ") 500 = [].
Proof. apply (proj2 (proj2 (X7_chunk_count (str "   ") 500))). reflexivity. Defined.

(** X8. Every chunk ends with a full stop and contains neither [!] nor
    [?]: the terminators of the text are replaced by the separator. *)
Theorem X8_chunks_end_with_full_stop :
  forall (text : jsstring) (maxChunkSize : Z) (chunk : jsstring),
    In chunk (splitIntoChunks text maxChunkSize) ->
    (exists body, chunk = body ++ [46%N])
    /\ ~ In 33%N chunk /\ ~ In 63%N chunk.
Proof.
  intros text maxChunkSize chunk Hin.
  destruct (chunks_are_grouped_sentences text maxChunkSize)
    as (groups & Hc & Hne & He).
  rewrite He in Hin. apply in_map_iff in Hin as (g & <- & Hg).
  pose proof (sentencesOf_Forall text) as Hok. rewrite <- Hc in Hok.
  apply Forall_concat_inv in Hok. rewrite Forall_forall in Hok, Hne.
  specialize (Hok g Hg). specialize (Hne g Hg).
  destruct g as [| s g]; [congruence |].
  inversion Hok as [| ? ? [Hb Ht] Hrest]; subst.
  destruct (renderGroup_shape s g Hb) as [Hend Hchars].
  split; [exact Hend |].
  assert (Hno : forall c, isTerminator c = true -> c <> 46%N ->
                          ~ In c (renderGroup (s :: g))).
  { intros c Hterm Hdot Hc'. destruct (Hchars c Hc') as [-> | [-> | Hs]];
      [congruence | discriminate Hterm |].
    apply in_concat in Hs as (s' & Hs' & Hcs).
    rewrite Forall_forall in Hok. destruct (Hok s' Hs') as [_ Ht'].
    rewrite (terminatorFree_In s' c Ht' Hcs) in Hterm. discriminate. }
  split; apply Hno; (reflexivity || discriminate).
Qed.

Lemma X8_chunks_end_with_full_stop_witness :
  (exists body, str "Three." = body ++ [46%N])
  /\ ~ In 33%N (str "Three.") /\ ~ In 63%N (str "Three.").
Proof.
  apply (X8_chunks_end_with_full_stop (str "One. Two! Three?") 12).
  vm_compute. right. left. reflexivity.
Defined.

(** X9. The matches counted for a keyword do not overlap: their number
    times the keyword's length never exceeds the length of the text
    searched. *)
Theorem X9_matches_do_not_overlap :
  forall keyword s : jsstring, matchCount keyword s * length keyword <= length s.
Proof.
  intros keyword s. unfold matchCount.
  pose proof (matchCountFrom_bound keyword s 0) as H. lia.
Qed.

(** X10. With a key configured, [generateEmbedding] returns whatever the
    response holds at [data.data[0].embedding], without checking it: when
    the first item has no such field the result is [undefined], not the
    fallback vector. *)
Theorem X10_embedding_not_validated :
  forall (toLowerCase : jsstring -> jsstring) (OPENAI_API_KEY : option jsstring)
         (axios_post : jsstring -> jsval -> completion jsval) (text : jsstring)
         (response data : list (jsstring * jsval)) (item : list (jsstring * jsval))
         (items : list jsval),
    keyMissing OPENAI_API_KEY = false ->
    axios_post embeddingsUrl (embeddingRequest text) = Return (JObj response) ->
    lookupProp (str "data") response = JObj data ->
    lookupProp (str "data") data = JArr (JObj item :: items) ->
    generateEmbedding toLowerCase OPENAI_API_KEY axios_post text
    = Return (lookupProp (str "embedding") item)
    /\ (item = [] ->
        generateEmbedding toLowerCase OPENAI_API_KEY axios_post text = Return JUndefined).
Proof.
  intros toLowerCase key post text response data item items Hk Hpost Hdata Hitems.
  assert (H : generateEmbedding toLowerCase key post text
              = Return (lookupProp (str "embedding") item)).
  { unfold generateEmbedding, remoteEmbedding. rewrite Hk, Hpost.
    cbn [bind getProp]. rewrite Hdata. cbn [bind getProp]. rewrite Hitems.
    reflexivity. }
  split; [exact H |]. intros ->. exact H.
Qed.

Lemma X10_embedding_not_validated_witness :
  generateEmbedding (fun s => s) (Some (str "sk-test"))
    (fun _ _ => Return (JObj [(str "status", JNum 200);
                              (str "data", JObj [(str "data", JArr [JObj []])])]))
    (str "market data")
  = Return JUndefined.
Proof.
  refine (proj2 (X10_embedding_not_validated (fun s => s) (Some (str "sk-test"))
                   (fun _ _ => Return (JObj [(str "status", JNum 200);
                      (str "data", JObj [(str "data", JArr [JObj []])])]))
                   (str "market data")
                   [(str "status", JNum 200);
                    (str "data", JObj [(str "data", JArr [JObj []])])]
                   [(str "data", JArr [JObj []])] [] []
                   eq_refl eq_refl eq_refl eq_refl) eq_refl).
Defined.

(** X11. [processDocument] appends to the store, keeping what it held; it
    yields one chunk record per chunk of the text, the record at position
    [i] carrying chunk [i] as content, [i] as [chunkIndex], the number of
    chunks as [totalChunks] and the document's name and category; and no
    record has empty content. *)
Theorem X11_processDocument_records :
  forall (embed : jsstring -> list float) (extractKeywords : jsstring -> list jsstring)
         (now content fileName category : jsstring) (store : list Chunk.t),
    let chunks := splitIntoChunks content 500 in
    let processed :=
      fst (processDocument embed extractKeywords now content fileName category store) in
    snd (processDocument embed extractKeywords now content fileName category store)
    = store ++ processed
    /\ map Chunk.content processed = chunks
    /\ (forall i d,
          nth_error processed i = Some d ->
          nth_error chunks i = Some (Chunk.content d)
          /\ Chunk.chunkIndex d = i
          /\ Chunk.totalChunks d = length chunks
          /\ Chunk.fileName d = fileName
          /\ Chunk.category d = category
          /\ Chunk.embedding d = embed (Chunk.content d))
    /\ Forall (fun d => Chunk.content d <> []) processed.
Proof.
  intros embed extractKeywords now content fileName category store chunks processed.
  subst processed. unfold processDocument. cbn [fst snd]. fold chunks.
  split; [reflexivity |]. split; [apply processChunks_content |]. split.
  - intros i d Hd. rewrite processChunks_nth in Hd. cbn [Nat.add] in Hd.
    destruct (nth_error chunks i) as [chunk |]; [| discriminate].
    cbn [option_map] in Hd. injection Hd as <-. repeat split.
  - pose proof (splitIntoChunks_nonempty content 500) as Hne. fold chunks in Hne.
    rewrite <- (processChunks_content embed extractKeywords now fileName category
                  (length chunks) chunks 0) in Hne.
    rewrite Forall_map in Hne. exact Hne.
Qed.

(** X12. The ids of the chunk records of one document are pairwise
    distinct. *)
Theorem X12_chunk_ids_distinct :
  forall (embed : jsstring -> list float) (extractKeywords : jsstring -> list jsstring)
         (now content fileName category : jsstring) (store : list Chunk.t),
    NoDup (map Chunk.id
             (fst (processDocument embed extractKeywords now content fileName
                     category store))).
Proof.
  intros. unfold processDocument. cbn [fst]. apply processChunks_NoDup.
Qed.

(** X13. Uploading a document under a name that no stored chunk carries
    and then deleting the example just added gives back the stores as they
    were, whatever the number of chunks and whether or not RAG is enabled;
    the delete reports as many removed chunks as the upload processed. *)
Theorem X13_upload_then_delete_restores :
  forall embed extractKeywords now (ragEnabled : bool)
         trainingData fileName category st indexParam,
    nonEmpty trainingData = true -> nonEmpty fileName = true ->
    Forall (fun d => fromSource fileName d = false) (documentStore st) ->
    parseInt indexParam = PInt (Z.of_nat (length (trainingExamples st))) ->
    let uploaded :=
      uploadTraining embed extractKeywords now ragEnabled trainingData fileName
        category st in
    exists chunksProcessed,
      fst uploaded = Uploaded (S (length (trainingExamples st))) chunksProcessed
      /\ deleteTrainingExample indexParam (snd uploaded)
         = (Deleted fileName chunksProcessed (length (trainingExamples st)), st).
Proof.
  intros embed extractKeywords now ragEnabled trainingData fileName category st
    indexParam Hdata Hname Hfresh Hp uploaded.
  destruct st as [examples store]. cbn [trainingExamples documentStore] in *.
  subst uploaded. unfold uploadTraining. rewrite Hdata, Hname. cbn [negb orb].
  cbn [trainingExamples documentStore].
  set (example := TrainingExample.mk trainingData fileName now category
                    (extractKeywords trainingData)).
  set (processed := processChunks embed extractKeywords now fileName category
                      (length (splitIntoChunks trainingData 500)) 0
                      (splitIntoChunks trainingData 500)).
  assert (Hsrc : Forall (fun d => fromSource fileName d = true) processed).
  { eapply Forall_impl; [| apply processChunks_fileName].
    cbn beta. intros d Hd. unfold fromSource. rewrite Hd. apply jsstring_eqb_refl. }
  assert (Hz : (0 <= Z.of_nat (length examples)
                < Z.of_nat (length (examples ++ [example])))%Z).
  { rewrite length_app. cbn [length]. lia. }
  destruct (splice1_in_bounds _ (examples ++ [example]) Hz) as (removed & Hn & Hs).
  rewrite Nat2Z.id in Hn, Hs.
  rewrite nth_error_app2, Nat.sub_diag in Hn by lia. cbn [nth_error] in Hn.
  injection Hn as <-.
  rewrite firstn_app, firstn_all, Nat.sub_diag in Hs. cbn [firstn] in Hs.
  rewrite skipn_all2 in Hs by (rewrite length_app; cbn [length]; lia).
  rewrite !app_nil_r in Hs.
  assert (Hkeep : filter (fun d => negb (fromSource fileName d)) store = store).
  { apply filter_all. eapply Forall_impl; [| exact Hfresh].
    cbn beta. intros d ->. reflexivity. }
  assert (Hlen : forall n, length (examples ++ [example]) = S n -> n = length examples).
  { intros n. rewrite length_app. cbn [length]. lia. }
  destruct ragEnabled.
  - unfold processDocument. fold processed. cbn [fst snd].
    exists (length processed). split.
    { f_equal. rewrite length_app. cbn [length]. lia. }
    rewrite (delete_removed indexParam _ example examples);
      cbn [trainingExamples documentStore]; rewrite ?Hp; cbn [numLt numGe].
    + cbn [TrainingExample.fileName example]. rewrite !filter_app.
      rewrite (filter_none (fromSource fileName) store Hfresh).
      rewrite (filter_all (fromSource fileName) processed Hsrc).
      rewrite Hkeep, (filter_none _ processed).
      * rewrite app_nil_r. reflexivity.
      * eapply Forall_impl; [| exact Hsrc]. cbn beta. intros d ->. reflexivity.
    + apply Z.ltb_ge. lia.
    + apply Z.leb_gt. rewrite length_app. cbn [length]. lia.
    + exact Hs.
  - cbn [fst snd length]. exists 0. split.
    { f_equal. rewrite length_app. cbn [length]. lia. }
    rewrite (delete_removed indexParam _ example examples);
      cbn [trainingExamples documentStore]; rewrite ?Hp; cbn [numLt numGe].
    + cbn [TrainingExample.fileName example].
      rewrite (filter_none (fromSource fileName) store Hfresh), Hkeep. reflexivity.
    + apply Z.ltb_ge. lia.
    + apply Z.leb_gt. rewrite length_app. cbn [length]. lia.
    + exact Hs.
Qed.

Lemma X13_upload_then_delete_restores_witness :
  exists chunksProcessed,
    fst (uploadTraining (fun _ => []) (fun _ => []) (str "2024-01-01T00:00:00.000Z")
           false (str "Some text.") (str "notes.txt") (str "training")
           {| trainingExamples := [exampleOf "a.txt"];
              documentStore := [chunkOf "a.txt" []] |})
    = Uploaded 2 chunksProcessed
    /\ deleteTrainingExample (str "1")
         (snd (uploadTraining (fun _ => []) (fun _ => [])
                 (str "2024-01-01T00:00:00.000Z")
                 false (str "Some text.") (str "notes.txt") (str "training")
                 {| trainingExamples := [exampleOf "a.txt"];
                    documentStore := [chunkOf "a.txt" []] |}))
       = (Deleted (str "notes.txt") chunksProcessed 1,
          {| trainingExamples := [exampleOf "a.txt"];
             documentStore := [chunkOf "a.txt" []] |}).
Proof.
  apply (X13_upload_then_delete_restores (fun _ => []) (fun _ => [])
           (str "2024-01-01T00:00:00.000Z") false (str "Some text.")
           (str "notes.txt") (str "training")
           {| trainingExamples := [exampleOf "a.txt"];
              documentStore := [chunkOf "a.txt" []] |} (str "1")).
  - reflexivity.
  - reflexivity.
  - repeat constructor.
  - reflexivity.
Defined.

(** X14. An upload never drops or reorders what is stored: the examples
    and the chunks held before are a prefix of those held after.  An
    accepted upload adds exactly one example, holding the uploaded data,
    name and category; it adds the chunks of [processDocument] when RAG is
    enabled and none otherwise, every one carrying the uploaded name, and it
    reports the new number of examples and the number of chunks added.  A
    request with empty training data or an empty file name is answered 400
    and changes nothing. *)
Theorem X14_upload_only_appends :
  forall embed extractKeywords now (ragEnabled : bool)
         trainingData fileName category st,
    let uploaded :=
      uploadTraining embed extractKeywords now ragEnabled trainingData fileName
        category st in
    (exists newExamples newChunks,
        trainingExamples (snd uploaded) = trainingExamples st ++ newExamples
        /\ documentStore (snd uploaded) = documentStore st ++ newChunks
        /\ length newExamples <= 1
        /\ Forall (fun d => Chunk.fileName d = fileName) newChunks
        /\ (ragEnabled = false -> newChunks = []))
    /\ (nonEmpty trainingData = true -> nonEmpty fileName = true ->
        exists example newChunks,
          trainingExamples (snd uploaded) = trainingExamples st ++ [example]
          /\ TrainingExample.content example = trainingData
          /\ TrainingExample.fileName example = fileName
          /\ TrainingExample.category example = category
          /\ documentStore (snd uploaded) = documentStore st ++ newChunks
          /\ newChunks
             = (if ragEnabled
                then fst (processDocument embed extractKeywords now trainingData
                            fileName category (documentStore st))
                else [])
          /\ Forall (fun d => Chunk.fileName d = fileName) newChunks
          /\ fst uploaded
             = Uploaded (S (length (trainingExamples st))) (length newChunks))
    /\ (nonEmpty trainingData = false \/ nonEmpty fileName = false ->
        uploaded = (UploadBadRequest, st)).
Proof.
  intros embed extractKeywords now ragEnabled trainingData fileName category st uploaded.
  subst uploaded. unfold uploadTraining, processDocument.
  destruct (nonEmpty trainingData) eqn:Hd; destruct (nonEmpty fileName) eqn:Hn;
    cbn [negb orb].
  2-4: split; [exists [], []; rewrite !app_nil_r; cbn [fst snd length];
               repeat split; auto
              | split; [intros; discriminate | reflexivity]].
  set (example := TrainingExample.mk trainingData fileName now category
                    (extractKeywords trainingData)).
  assert (Hlen : length (trainingExamples st ++ [example])
                 = S (length (trainingExamples st))).
  { rewrite length_app. cbn [length]. lia. }
  split; [| split; [intros _ _ | intros [H | H]; discriminate]].
  - destruct ragEnabled; cbn [fst snd trainingExamples documentStore].
    + eexists _, _. repeat split; [cbn [length]; lia | apply processChunks_fileName |].
      discriminate.
    + exists [example], []. rewrite app_nil_r.
      repeat split; [cbn [length]; lia | constructor].
  - destruct ragEnabled; cbn [fst snd trainingExamples documentStore].
    + exists example. eexists. repeat split; [apply processChunks_fileName |].
      rewrite Hlen. reflexivity.
    + exists example, []. rewrite app_nil_r, Hlen. repeat split. constructor.
Qed.

Lemma X14_upload_only_appends_witness :
  exists example newChunks,
    trainingExamples
      (snd (uploadTraining (fun _ => []) (fun _ => []) [] true (str "One. Two.")
              (str "notes.txt") (str "training") emptyState))
    = trainingExamples emptyState ++ [example]
    /\ TrainingExample.content example = str "One. Two."
    /\ TrainingExample.fileName example = str "notes.txt"
    /\ TrainingExample.category example = str "training"
    /\ documentStore
         (snd (uploadTraining (fun _ => []) (fun _ => []) [] true (str "One. Two.")
                 (str "notes.txt") (str "training") emptyState))
       = documentStore emptyState ++ newChunks
    /\ newChunks
       = (if true
          then fst (processDocument (fun _ => []) (fun _ => []) [] (str "One. Two.")
                      (str "notes.txt") (str "training") (documentStore emptyState))
          else [])
    /\ Forall (fun d => Chunk.fileName d = str "notes.txt") newChunks
    /\ fst (uploadTraining (fun _ => []) (fun _ => []) [] true (str "One. Two.")
              (str "notes.txt") (str "training") emptyState)
       = Uploaded (S (length (trainingExamples emptyState))) (length newChunks).
Proof.
  exact (proj1 (proj2 (X14_upload_only_appends (fun _ => []) (fun _ => []) [] true
                         (str "One. Two.") (str "notes.txt") (str "training")
                         emptyState))
           eq_refl eq_refl).
Defined.

(** X15. On an empty registry no delete succeeds and none changes the
    stores: an index that parses to a number is answered NotFound, one that
    does not is answered with the 500 of the handler's [catch]. *)
Theorem X15_delete_on_empty_registry :
  forall (indexParam : jsstring) (st : ServerState),
    trainingExamples st = [] ->
    snd (deleteTrainingExample indexParam st) = st
    /\ (forall z, parseInt indexParam = PInt z ->
          fst (deleteTrainingExample indexParam st) = NotFound)
    /\ (parseInt indexParam = PNaN ->
          fst (deleteTrainingExample indexParam st) = DeleteFailed).
Proof.
  intros indexParam st Hempty. unfold deleteTrainingExample. rewrite Hempty.
  destruct (parseInt indexParam) as [| z]; cbn [numLt numGe length orb].
  - cbn. rewrite <- Hempty. destruct st. repeat split. intros z. discriminate.
  - change (Z.of_nat 0) with 0%Z.
    destruct (Z.ltb_spec z 0); destruct (Z.leb_spec 0 z); try lia;
      cbn [orb fst snd]; repeat split; discriminate.
Qed.

Lemma X15_delete_on_empty_registry_witness :
  snd (deleteTrainingExample (str "0") emptyState) = emptyState
  /\ (forall z, parseInt (str "0") = PInt z ->
        fst (deleteTrainingExample (str "0") emptyState) = NotFound)
  /\ (parseInt (str "0") = PNaN ->
        fst (deleteTrainingExample (str "0") emptyState) = DeleteFailed).
Proof. apply X15_delete_on_empty_registry. reflexivity. Defined.

(** X16. A delete touches nothing but the example removed and the chunks
    of its name.  When it answers Deleted, exactly one example is gone, the
    others keeping their order; the chunks left are those of other names, in
    their order; and the chunks of every other name are the ones held
    before.  With any other answer the stores are unchanged. *)
Theorem X16_delete_frame :
  forall (indexParam : jsstring) (st : ServerState),
    let outcome := deleteTrainingExample indexParam st in
    (forall name removedChunks remainingCount,
        fst outcome = Deleted name removedChunks remainingCount ->
        (exists before removed after,
            trainingExamples st = before ++ removed :: after
            /\ TrainingExample.fileName removed = name
            /\ trainingExamples (snd outcome) = before ++ after)
        /\ S remainingCount = length (trainingExamples st)
        /\ (forall d, In d (documentStore (snd outcome))
                      <-> In d (documentStore st) /\ Chunk.fileName d <> name)
        /\ (forall other, other <> name ->
              filter (fromSource other) (documentStore (snd outcome))
              = filter (fromSource other) (documentStore st))
        /\ length (documentStore st)
           = length (documentStore (snd outcome)) + removedChunks)
    /\ ((forall name removedChunks remainingCount,
            fst outcome <> Deleted name removedChunks remainingCount) ->
        snd outcome = st).
Proof.
  intros indexParam st outcome. subst outcome.
  pose proof (delete_outcome indexParam st) as H.
  destruct (fst (deleteTrainingExample indexParam st)) as [| name k r |] eqn:Hfst.
  - split; [intros ? ? ? E; discriminate E | intros _; exact H].
  - split; [| intros Hno; exfalso; eapply Hno; reflexivity].
    intros name' k' r' E. injection E as <- <- <-.
    destruct H as ((before & removed & after & Hex & Hname & Hrem & Hcount) & Hstore & Hk).
    split; [exists before, removed, after; auto |]. split; [| split; [| split]].
    + rewrite Hcount, Hex, !length_app. cbn [length]. lia.
    + intros d. rewrite Hstore, filter_In. unfold fromSource.
      rewrite negb_true_iff. split; intros [Hin Hd]; split; try assumption.
      * intros E. apply jsstring_eqb_eq in E. congruence.
      * destruct (jsstring_eqb (Chunk.fileName d) name) eqn:E; [| reflexivity].
        apply jsstring_eqb_eq in E. contradiction.
    + intros other Hother. rewrite Hstore. apply filter_filter_implied.
      intros d Hd. unfold fromSource in *. apply jsstring_eqb_eq in Hd.
      apply negb_true_iff. destruct (jsstring_eqb (Chunk.fileName d) name) eqn:E;
        [| reflexivity].
      apply jsstring_eqb_eq in E. congruence.
    + rewrite Hstore, Hk.
      rewrite (filter_length_split (fromSource name) (documentStore st)). reflexivity.
  - split; [intros ? ? ? E; discriminate E | intros _; exact H].
Qed.

Lemma X16_delete_frame_witness :
  filter (fromSource (str "b.txt"))
    (documentStore (snd (deleteTrainingExample (str "0")
       {| trainingExamples := [exampleOf "a.txt"; exampleOf "b.txt"];
          documentStore := [chunkOf "a.txt" []; chunkOf "b.txt" []; chunkOf "a.txt" []] |})))
  = filter (fromSource (str "b.txt"))
      [chunkOf "a.txt" []; chunkOf "b.txt" []; chunkOf "a.txt" []].
Proof.
  refine (proj1 (proj2 (proj2 (proj2 (proj1 (X16_delete_frame (str "0")
       {| trainingExamples := [exampleOf "a.txt"; exampleOf "b.txt"];
          documentStore := [chunkOf "a.txt" []; chunkOf "b.txt" []; chunkOf "a.txt" []] |})
       (str "a.txt") 2 1 eq_refl)))) (str "b.txt") _).
  vm_compute. discriminate.
Defined.

(** X17. The index under which GET /admin/training-examples lists an
    example, written in decimal, is read back by the delete handler as that
    index: the request deletes exactly the example listed there. *)
Theorem X17_listed_index_deletes_that_example :
  forall (i : nat) (st : ServerState) (listed : TrainingExample.t),
    nth_error (trainingExamples st) i = Some listed ->
    parseInt (decimal i) = PInt (Z.of_nat i)
    /\ deleteTrainingExample (decimal i) st
       = (Deleted (TrainingExample.fileName listed)
            (length (filter (fromSource (TrainingExample.fileName listed))
                       (documentStore st)))
            (length (trainingExamples st) - 1),
          {| trainingExamples :=
               firstn i (trainingExamples st) ++ skipn (S i) (trainingExamples st);
             documentStore :=
               filter (fun d => negb (fromSource (TrainingExample.fileName listed) d))
                 (documentStore st) |}).
Proof.
  intros i st listed Hnth. split; [apply parseInt_decimal |].
  assert (Hi : i < length (trainingExamples st)).
  { apply nth_error_Some. congruence. }
  assert (Hz : (0 <= Z.of_nat i < Z.of_nat (length (trainingExamples st)))%Z) by lia.
  destruct (splice1_in_bounds _ (trainingExamples st) Hz) as (removed & Hn & Hs).
  rewrite Nat2Z.id in Hn, Hs. rewrite Hnth in Hn. injection Hn as <-.
  rewrite (delete_removed (decimal i) st listed
             (firstn i (trainingExamples st) ++ skipn (S i) (trainingExamples st)));
    rewrite ?parseInt_decimal; cbn [numLt numGe].
  - do 2 f_equal. rewrite length_app, length_firstn, length_skipn. lia.
  - apply Z.ltb_ge. lia.
  - apply Z.leb_gt. lia.
  - exact Hs.
Qed.

Lemma X17_listed_index_deletes_that_example_witness :
  parseInt (decimal 1) = PInt (Z.of_nat 1)
  /\ deleteTrainingExample (decimal 1)
       {| trainingExamples := [exampleOf "a.txt"; exampleOf "b.txt"];
          documentStore := [chunkOf "a.txt" []; chunkOf "b.txt" []] |}
     = (Deleted (str "b.txt") 1 1,
        {| trainingExamples := [exampleOf "a.txt"];
           documentStore := [chunkOf "a.txt" []] |}).
Proof.
  exact (X17_listed_index_deletes_that_example 1
           {| trainingExamples := [exampleOf "a.txt"; exampleOf "b.txt"];
              documentStore := [chunkOf "a.txt" []; chunkOf "b.txt" []] |}
           (exampleOf "b.txt") eq_refl).
Defined.

(** X18. Both settings updates are idempotent: sending the same body a
    second time changes nothing more. *)
Theorem X18_settings_updates_idempotent :
  forall (parseIntOf parseFloatOf : jsval -> float),
    (forall body adminSettings,
        updateApiSettings parseIntOf parseFloatOf body
          (updateApiSettings parseIntOf parseFloatOf body adminSettings)
        = updateApiSettings parseIntOf parseFloatOf body adminSettings)
    /\ (forall body state,
          updateRagSettings body (updateRagSettings body state)
          = updateRagSettings body state).
Proof.
  intros parseIntOf parseFloatOf. split.
  - intros body adminSettings. unfold updateApiSettings.
    cbn [AdminSettings.systemPrompt AdminSettings.claudeModel AdminSettings.maxTokens
         AdminSettings.temperature AdminSettings.ragEnabled
         AdminSettings.similarityThreshold AdminSettings.maxTrainingExamples].
    destruct (truthy (body_claudeModel body)), (truthy (body_maxTokens body)),
      (isDefined (body_temperature body)), (isDefined (body_ragEnabled body)),
      (truthy (body_similarityThreshold body)),
      (truthy (body_maxTrainingExamples body)); reflexivity.
  - intros body [ragSettings adminSettings]. unfold updateRagSettings.
    cbn [RagSettings.enabled RagSettings.mode RagSettings.similarityThreshold
         RagSettings.maxExamples AdminSettings.systemPrompt AdminSettings.claudeModel
         AdminSettings.maxTokens AdminSettings.temperature].
    destruct (isDefined (body_enabled body)), (truthy (body_mode body)),
      (isDefined (body_threshold body)), (isDefined (body_maxExamples body));
      reflexivity.
Qed.

(** X19. The two handlers do not see each other's similarity threshold.
    A threshold stored through POST /admin/update-api-settings changes the
    admin settings only; the next POST /admin/rag-settings that carries no
    threshold writes the RAG settings' own, older threshold over it, and
    leaves the RAG settings as they were when its body is empty. *)
Theorem X19_rag_settings_overwrite_api_threshold :
  forall (parseIntOf parseFloatOf : jsval -> float) apiBody ragBody ragSettings adminSettings,
    truthy (body_similarityThreshold apiBody) = true ->
    body_threshold ragBody = JUndefined ->
    let afterApi := updateApiSettings parseIntOf parseFloatOf apiBody adminSettings in
    let afterRag := updateRagSettings ragBody (ragSettings, afterApi) in
    AdminSettings.similarityThreshold afterApi
    = JNum (parseFloatOf (body_similarityThreshold apiBody))
    /\ AdminSettings.similarityThreshold (snd afterRag)
       = RagSettings.similarityThreshold ragSettings
    /\ (body_enabled ragBody = JUndefined -> body_mode ragBody = JUndefined ->
        body_maxExamples ragBody = JUndefined -> fst afterRag = ragSettings).
Proof.
  intros parseIntOf parseFloatOf apiBody ragBody ragSettings adminSettings Hthr Hundef
    afterApi afterRag.
  subst afterRag afterApi. unfold updateRagSettings, updateApiSettings.
  cbn [fst snd AdminSettings.similarityThreshold RagSettings.similarityThreshold].
  rewrite Hthr, Hundef. cbn [isDefined]. repeat split.
  intros -> -> ->. cbn [isDefined truthy]. destruct ragSettings. reflexivity.
Qed.

Lemma X19_rag_settings_overwrite_api_threshold_witness :
  AdminSettings.similarityThreshold
    (snd (updateRagSettings
            {| body_enabled := JUndefined; body_mode := JUndefined;
               body_threshold := JUndefined; body_maxExamples := JUndefined |}
            (initialRagSettings,
             updateApiSettings (fun _ => nan) (fun _ => 0.5%float)
               {| body_claudeModel := JUndefined; body_maxTokens := JUndefined;
                  body_temperature := JUndefined; body_ragEnabled := JUndefined;
                  body_similarityThreshold := JNum 0.5;
                  body_maxTrainingExamples := JUndefined |}
               initialAdminSettings)))
  = RagSettings.similarityThreshold initialRagSettings.
Proof.
  exact (proj1 (proj2 (X19_rag_settings_overwrite_api_threshold
           (fun _ => nan) (fun _ => 0.5%float)
           {| body_claudeModel := JUndefined; body_maxTokens := JUndefined;
              body_temperature := JUndefined; body_ragEnabled := JUndefined;
              body_similarityThreshold := JNum 0.5;
              body_maxTrainingExamples := JUndefined |}
           {| body_enabled := JUndefined; body_mode := JUndefined;
              body_threshold := JUndefined; body_maxExamples := JUndefined |}
           initialRagSettings initialAdminSettings eq_refl eq_refl))).
Defined.

(** X20. Raising the threshold only cuts the tail of a result: with the
    same store, query and limit, the result for a higher threshold is a
    prefix of the result for a lower one. *)
Theorem X20_higher_threshold_gives_prefix :
  forall store queryEmbedding (lower higher : float) (limit : nat),
    (lower <=? higher)%float = true ->
    exists n,
      retrieveRelevantContext store higher queryEmbedding (Z.of_nat limit)
      = firstn n (retrieveRelevantContext store lower queryEmbedding (Z.of_nat limit)).
Proof.
  intros store q lower higher limit Hle.
  destruct (leb_true_not_nan _ _ Hle) as [Hlo Hhi].
  rewrite !retrieve_slice, !slice0_firstn.
  set (cmp := fun a b : ScoredChunk => (similarity b - similarity a)%float).
  set (ok := fun c : ScoredChunk => is_nan (similarity c) = false).
  set (key := fun c : ScoredChunk => fkey (similarity c)).
  set (kept := filter (aboveThreshold lower) (scoreAll q store)).
  assert (Hcmp : forall x y, ok x -> ok y ->
             (0 <? cmp x y)%float = (key x <? key y)%Z).
  { intros x y Hx Hy. unfold cmp, key. rewrite sub_positive.
    apply ltb_key; assumption. }
  assert (Hok : Forall ok kept) by apply aboveThreshold_not_nan.
  assert (Himpl : forall c, aboveThreshold higher c = true ->
                            aboveThreshold lower c = true).
  { intros c Hc. unfold aboveThreshold in *.
    pose proof (ltb_true_not_nan _ _ Hc) as Hn.
    rewrite ltb_key in * by assumption. rewrite leb_key in Hle by assumption.
    apply Z.ltb_lt in Hc. apply Z.leb_le in Hle. apply Z.ltb_lt. lia. }
  assert (Hup : forall x y, ok x -> ok y -> aboveThreshold higher x = true ->
                            (key x <= key y)%Z -> aboveThreshold higher y = true).
  { intros x y Hx Hy Hx' Hxy. unfold aboveThreshold, key in *.
    rewrite ltb_key in * by assumption.
    apply Z.ltb_lt in Hx'. apply Z.ltb_lt. lia. }
  rewrite <- (filter_filter_implied (aboveThreshold higher) (aboveThreshold lower)
                (scoreAll q store) Himpl).
  fold kept.
  rewrite (sort_filter cmp key ok Hcmp (aboveThreshold higher) kept Hok).
  rewrite (filter_prefix key ok (aboveThreshold higher) Hup (sort cmp kept)
             (sort_ok cmp ok kept Hok) (sort_sorted cmp key ok Hcmp kept Hok)).
  set (m := length (filter (aboveThreshold higher) (sort cmp kept))).
  exists (Nat.min limit m).
  rewrite !firstn_firstn. f_equal. lia.
Qed.

Lemma X20_higher_threshold_gives_prefix_witness :
  exists n,
    retrieveRelevantContext
      [chunkOf "a" [9; 3; 3; 1]%float; chunkOf "b" [5; 5; 5; 5]%float]
      0.7%float [1; 0; 0; 0]%float (Z.of_nat 2)
    = firstn n
        (retrieveRelevantContext
           [chunkOf "a" [9; 3; 3; 1]%float; chunkOf "b" [5; 5; 5; 5]%float]
           0.4%float [1; 0; 0; 0]%float (Z.of_nat 2)).
Proof.
  apply (X20_higher_threshold_gives_prefix
           [chunkOf "a" [9; 3; 3; 1]%float; chunkOf "b" [5; 5; 5; 5]%float]
           [1; 0; 0; 0]%float 0.4%float 0.7%float 2).
  reflexivity.
Defined.

(** X21. Every text that [extractPercentages] hands to [parseFloat] is a
    decimal numeral: digits, or digits, a full stop and digits; there is no
    sign, no exponent and no white space in it. *)
Theorem X21_percentages_are_decimal_numerals :
  forall text : jsstring,
    Forall (fun capture => decimalNumeral capture = true) (percentCaptures 0 text).
Proof. intros text. apply percentCaptures_numerals. Qed.


(** X23. Whatever the analysis says, the chart has four treatment labels
    and three or four treatment values, and its two comparison series are
    the fixed ones: the percentages found never reach them. *)
Theorem X23_chart_shape :
  forall (parseFloat : jsstring -> float) (analysis : jsstring),
    let chart := generateChartData parseFloat analysis in
    length (Treatments.labels (ChartData.treatments chart)) = 4
    /\ (length (Treatments.data (ChartData.treatments chart)) = 3
        \/ length (Treatments.data (ChartData.treatments chart)) = 4)
    /\ Comparison.academic (ChartData.comparison chart) = vectorValue [72; 21; 7]%float
    /\ Comparison.community (ChartData.comparison chart) = vectorValue [44; 35; 21]%float.
Proof.
  intros parseFloat analysis chart. subst chart.
  unfold generateChartData.
  cbn [ChartData.treatments ChartData.comparison Treatments.labels Treatments.data
       Comparison.academic Comparison.community].
  split; [reflexivity |]. split; [| split; reflexivity].
  pose proof (extractPercentages_length parseFloat analysis
                (map str ["combination"; "monotherapy"; "experimental"]%string)) as Hb.
  destruct (Nat.leb_spec 3
              (length (extractPercentages parseFloat analysis
                         (map str ["combination"; "monotherapy"; "experimental"]%string))))
    as [H | H]; [lia | right; reflexivity].
Qed.

(** X24. An analysis with fewer than three percent signs gives the chart
    of the empty analysis: all its values are the built-in ones. *)
Theorem X24_few_percent_signs_give_default_chart :
  forall (parseFloat : jsstring -> float) (analysis : jsstring),
    percentSigns analysis < 3 ->
    generateChartData parseFloat analysis = generateChartData parseFloat [].
Proof.
  intros parseFloat analysis Hfew. unfold generateChartData.
  pose proof (extractPercentages_length parseFloat analysis) as Hb.
  assert (Hlen : forall keywords,
            (3 <=? length (extractPercentages parseFloat analysis keywords)) = false).
  { intros keywords. apply Nat.leb_gt. specialize (Hb keywords). lia. }
  rewrite Hlen. reflexivity.
Qed.

Lemma X24_few_percent_signs_give_default_chart_witness :
  generateChartData (fun _ => 0%float) (str "share grew by 12% and then 7.5 %")
  = generateChartData (fun _ => 0%float) [].
Proof.
  apply (X24_few_percent_signs_give_default_chart
           (fun _ => 0%float) (str "share grew by 12% and then 7.5 %")).
  vm_compute. lia.
Defined.

(** X25. An analysis in which exactly three percentages are found gives
    three treatment values for the four treatment labels. *)
Theorem X25_three_percentages_leave_a_label_without_value :
  forall (parseFloat : jsstring -> float) (analysis : jsstring),
    length (percentCaptures 0 analysis) = 3 ->
    let treatments := ChartData.treatments (generateChartData parseFloat analysis) in
    Treatments.data treatments = map parseFloat (percentCaptures 0 analysis)
    /\ length (Treatments.data treatments) = 3
    /\ length (Treatments.labels treatments) = 4.
Proof.
  intros parseFloat analysis Hthree treatments. subst treatments.
  unfold generateChartData. cbn [ChartData.treatments Treatments.labels Treatments.data].
  unfold extractPercentages. change 4%Z with (Z.of_nat 4).
  rewrite slice0_firstn, firstn_all2 by (rewrite length_map; lia).
  rewrite length_map, Hthree. cbn [Nat.leb]. rewrite length_map.
  split; [reflexivity |]. split; [exact Hthree | reflexivity].
Qed.

Lemma X25_three_percentages_leave_a_label_without_value_witness :
  let treatments :=
    ChartData.treatments
      (generateChartData (fun _ => 0%float) (str "41% chose A, 28 % chose B, 18.5% chose C")) in
  Treatments.data treatments
  = map (fun _ => 0%float) (percentCaptures 0 (str "41% chose A, 28 % chose B, 18.5% chose C"))
  /\ length (Treatments.data treatments) = 3
  /\ length (Treatments.labels treatments) = 4.
Proof.
  apply (X25_three_percentages_leave_a_label_without_value
           (fun _ => 0%float) (str "41% chose A, 28 % chose B, 18.5% chose C")).
  reflexivity.
Defined.
